(** * Yolact_minimal: utils/augmentations.py

    A shallow embedding of the augmentation pipeline (box primitives,
    coordinate transforms, Expand, RandomSampleCrop, RandomMirror, Resize,
    Pad, the composer and the validation preset) together with the
    properties stated about it.

    Floating-point numbers are modelled as exact rationals extended with
    the three special values of IEEE arithmetic; rounding and signed zeros
    are not modelled.  Python integers are [Z], array extents are [nat]. *)

From Stdlib Require Import QArith Qround Qminmax Lqa ZArith Lia List Bool.
Import ListNotations.
Local Open Scope Q_scope.

(** ** Floating-point values *)

Inductive fval : Type :=
| Fin (q : Q)
| PInf
| NInf
| NaN.

Definition Qlt_bool (a b : Q) : bool := negb (Qle_bool b a).


Definition fneg (x : fval) : fval :=
  match x with
  | Fin q => Fin (- q)
  | PInf => NInf
  | NInf => PInf
  | NaN => NaN
  end.

Definition fadd (x y : fval) : fval :=
  match x, y with
  | NaN, _ | _, NaN => NaN
  | Fin a, Fin b => Fin (a + b)
  | PInf, NInf | NInf, PInf => NaN
  | PInf, _ | _, PInf => PInf
  | NInf, _ | _, NInf => NInf
  end.

Definition fsub (x y : fval) : fval := fadd x (fneg y).

(** An infinity of the sign of [s * t], where [neg] tells whether the
    infinite factor is the negative one; [0 * inf] is NaN. *)
Definition signed_inf (neg : bool) (q : Q) : fval :=
  if Qeq_bool q 0 then NaN
  else if xorb neg (Qlt_bool q 0) then NInf else PInf.

Definition fmul (x y : fval) : fval :=
  match x, y with
  | NaN, _ | _, NaN => NaN
  | Fin a, Fin b => Fin (a * b)
  | Fin a, PInf | PInf, Fin a => signed_inf false a
  | Fin a, NInf | NInf, Fin a => signed_inf true a
  | PInf, PInf | NInf, NInf => PInf
  | PInf, NInf | NInf, PInf => NInf
  end.

(** numpy division: a zero divisor raises nothing, the quotient is an
    infinity of the sign of the dividend, or NaN for [0 / 0]. *)
Definition fdiv (x y : fval) : fval :=
  match x, y with
  | NaN, _ | _, NaN => NaN
  | Fin a, Fin b =>
      if Qeq_bool b 0 then signed_inf false a else Fin (a / b)
  | Fin _, _ => Fin 0
  | PInf, Fin b => if Qlt_bool b 0 then NInf else PInf
  | NInf, Fin b => if Qlt_bool b 0 then PInf else NInf
  | _, _ => NaN
  end.

(** [x < y] on floats: false as soon as one side is NaN. *)
Definition flt (x y : fval) : bool :=
  match x, y with
  | NaN, _ | _, NaN => false
  | Fin a, Fin b => Qlt_bool a b
  | _, NInf => false
  | NInf, _ => true
  | PInf, _ => false
  | _, PInf => true
  end.

Definition fle (x y : fval) : bool :=
  match x, y with
  | NaN, _ | _, NaN => false
  | Fin a, Fin b => Qle_bool a b
  | NInf, _ => true
  | _, PInf => true
  | _, _ => false
  end.

(** [np.maximum] and [np.minimum] propagate NaN. *)
Definition fmaximum (x y : fval) : fval :=
  match x, y with
  | NaN, _ | _, NaN => NaN
  | _, _ => if flt x y then y else x
  end.

Definition fminimum (x y : fval) : fval :=
  match x, y with
  | NaN, _ | _, NaN => NaN
  | _, _ => if flt y x then y else x
  end.

(** [np.clip(x, a_min=0, a_max=np.inf)] *)
Definition clip0 (x : fval) : fval := fminimum (fmaximum x (Fin 0)) PInf.

(** Equality of floats up to the representation of the rational. *)
Definition feq (x y : fval) : Prop :=
  match x, y with
  | Fin a, Fin b => a == b
  | PInf, PInf | NInf, NInf | NaN, NaN => True
  | _, _ => False
  end.

Definition of_int (z : Z) : fval := Fin (inject_Z z).
Definition of_nat (n : nat) : fval := of_int (Z.of_nat n).

(** ** Boxes: one row [x1, y1, x2, y2] of an [N x 4] array *)

Record box : Type := Box { bx1 : fval; by1 : fval; bx2 : fval; by2 : fval }.


Definition well_formed (b : box) : Prop :=
  fle (bx1 b) (bx2 b) = true /\ fle (by1 b) (by2 b) = true.

Definition box_eq (a b : box) : Prop :=
  feq (bx1 a) (bx1 b) /\ feq (by1 a) (by1 b) /\
  feq (bx2 a) (bx2 b) /\ feq (by2 a) (by2 b).

Definition boxes_eq (l1 l2 : list box) : Prop := Forall2 box_eq l1 l2.

(** ** Geometric primitives *)

(** One row of [intersect(box_a, box_b)]. *)
Definition intersect1 (a b : box) : fval :=
  let max_x := fminimum (bx2 a) (bx2 b) in
  let max_y := fminimum (by2 a) (by2 b) in
  let min_x := fmaximum (bx1 a) (bx1 b) in
  let min_y := fmaximum (by1 a) (by1 b) in
  fmul (clip0 (fsub max_x min_x)) (clip0 (fsub max_y min_y)).

Definition intersect (box_a : list box) (box_b : box) : list fval :=
  map (fun a => intersect1 a box_b) box_a.

Definition area (b : box) : fval :=
  fmul (fsub (bx2 b) (bx1 b)) (fsub (by2 b) (by1 b)).

(** The denominator [area_a + area_b - inter] of one row. *)
Definition union1 (a b : box) : fval :=
  fsub (fadd (area a) (area b)) (intersect1 a b).

Definition jaccard1 (a b : box) : fval :=
  fdiv (intersect1 a b) (union1 a b).

Definition jaccard_numpy (box_a : list box) (box_b : box) : list fval :=
  map (fun a => jaccard1 a box_b) box_a.

(** ** Results of a call: a value, a raised exception, or an exhausted
    random source / iteration budget (the source loops without bound) *)

Inductive exn : Type :=
| ValueError
| IndexError
| ZeroDivisionError
| CvError.

Inductive outcome (A : Type) : Type :=
| Return (a : A)
| Raise (e : exn)
| Exhausted.

Arguments Return {A} a.
Arguments Raise {A} e.
Arguments Exhausted {A}.

Definition obind {A B : Type} (x : outcome A) (f : A -> outcome B) : outcome B :=
  match x with
  | Return a => f a
  | Raise e => Raise e
  | Exhausted => Exhausted
  end.

(** ** The shared random source

    The process-wide generator is the tape of the numbers in [[0, 1)] that
    its successive calls to [random()] yield. *)

Definition tape : Type := list Q.

Definition M (A : Type) : Type := tape -> outcome (A * tape).

Definition ret {A : Type} (a : A) : M A := fun t => Return (a, t).

Definition bind {A B : Type} (m : M A) (f : A -> M B) : M B :=
  fun t => match m t with
           | Return (a, t') => f a t'
           | Raise e => Raise e
           | Exhausted => Exhausted
           end.

Definition lift {A : Type} (x : outcome A) : M A :=
  fun t => match x with
           | Return a => Return (a, t)
           | Raise e => Raise e
           | Exhausted => Exhausted
           end.

Declare Scope rand_scope.
Delimit Scope rand_scope with rand.
Notation "x <- m ;; k" := (bind m (fun x => k))
  (at level 61, m at next level, right associativity) : rand_scope.
Notation "x <~ m ;; k" := (obind m (fun x => k))
  (at level 61, m at next level, right associativity) : rand_scope.
Notation "' p <- m ;; k" := (bind m (fun x => match x with p => k end))
  (at level 61, p pattern, m at next level, right associativity) : rand_scope.
Notation "' p <~ m ;; k" := (obind m (fun x => match x with p => k end))
  (at level 61, p pattern, m at next level, right associativity) : rand_scope.
Local Open Scope rand_scope.

Definition random : M Q :=
  fun t => match t with
           | [] => Exhausted
           | u :: t' => Return (u, t')
           end.

(** [random.uniform(a, b)] is [a + (b - a) * random()]. *)
Definition random_uniform (a b : Q) : M Q :=
  u <- random ;; ret (a + (b - a) * u).

(** [random.randint(0, 1)], used for its truth value. *)
Definition random_randint01 : M bool :=
  u <- random ;; ret (negb (Z.eqb (Qfloor (2 * u)) 0)).

Definition random_choice {A : Type} (opts : list A) : M A :=
  u <- random ;;
  match nth_error opts (Z.to_nat (Qfloor (inject_Z (Z.of_nat (length opts)) * u))) with
  | Some o => ret o
  | None => lift (Raise IndexError)
  end.

(** ** Arrays of rank 2 and 3, with their shape *)

Inductive ndarray : Type :=
| Arr2 (d0 d1 : nat) (v : list (list Q))
| Arr3 (d0 d1 d2 : nat) (v : list (list (list Q))).

Definition shape (a : ndarray) : list nat :=
  match a with
  | Arr2 d0 d1 _ => [d0; d1]
  | Arr3 d0 d1 d2 _ => [d0; d1; d2]
  end.

Definition wf_array (a : ndarray) : Prop :=
  match a with
  | Arr2 d0 d1 v => length v = d0 /\ Forall (fun r => length r = d1) v
  | Arr3 d0 d1 d2 v =>
      length v = d0 /\
      Forall (fun r => length r = d1 /\ Forall (fun p => length p = d2) r) v
  end.

Definition tab {A : Type} (n : nat) (f : nat -> A) : list A := map f (seq 0 n).

Definition get3 (v : list (list (list Q))) (i j k : nat) : Q :=
  nth k (nth j (nth i v []) []) 0.

(** A Python slice bound on an axis of extent [n]. *)
Definition norm_index (n : nat) (i : Z) : nat :=
  Z.to_nat (if (i <? 0)%Z then Z.max (i + Z.of_nat n) 0 else Z.min i (Z.of_nat n)).

Definition slice_start (n : nat) (a b : Z) : nat := norm_index n a.
Definition slice_len (n : nat) (a b : Z) : nat := norm_index n b - norm_index n a.

Definition slice_list {A : Type} (a b : Z) (l : list A) : list A :=
  firstn (slice_len (length l) a b) (skipn (slice_start (length l) a b) l).

(** Broadcasting an extent [v] to an extent [r]. *)
Definition broadcasts (v r : nat) : bool := Nat.eqb v r || Nat.eqb v 1.

(** [target[s0:s0+r0, s1:s1+r1, s2:s2+r2] = value] on a rank-3 target; a
    rank-2 value is read as [1 x _ x _], and every extent of the value has
    to equal the extent of the region or be 1. *)
Definition assign3 (target : ndarray) (s0 r0 s1 r1 s2 r2 : nat)
           (value : ndarray) : outcome ndarray :=
  match target with
  | Arr2 _ _ _ => Raise IndexError
  | Arr3 d0 d1 d2 tv =>
      let '(v0, v1, v2, vv) :=
        match value with
        | Arr3 v0 v1 v2 vv => (v0, v1, v2, vv)
        | Arr2 v1 v2 vv => (1%nat, v1, v2, [vv])
        end in
      if broadcasts v0 r0 && broadcasts v1 r1 && broadcasts v2 r2 then
        Return (Arr3 d0 d1 d2
          (tab d0 (fun i => tab d1 (fun j => tab d2 (fun k =>
             if (s0 <=? i)%nat && (i <? s0 + r0)%nat &&
                (s1 <=? j)%nat && (j <? s1 + r1)%nat &&
                (s2 <=? k)%nat && (k <? s2 + r2)%nat
             then get3 vv (if Nat.eqb v0 1 then 0 else i - s0)
                          (if Nat.eqb v1 1 then 0 else j - s1)
                          (if Nat.eqb v2 1 then 0 else k - s2)
             else get3 tv i j k)))))
      else Raise ValueError
  end.

(** [np.zeros((d0, d1, d2))]: a negative extent raises. *)
Definition np_zeros3 (d0 d1 d2 : Z) : outcome ndarray :=
  if ((d0 <? 0) || (d1 <? 0) || (d2 <? 0))%Z then Raise ValueError
  else Return (Arr3 (Z.to_nat d0) (Z.to_nat d1) (Z.to_nat d2)
                 (tab (Z.to_nat d0) (fun _ => tab (Z.to_nat d1) (fun _ =>
                    tab (Z.to_nat d2) (fun _ => 0))))).

(** The dataset pixel mean, as [np.array([103.94, 116.78, 123.68])]. *)
Definition MEANS : list Q := [10394 # 100; 11678 # 100; 12368 # 100].
Definition STD : list Q := [5738 # 100; 5712 # 100; 5840 # 100].

(** [a[:, :, :] = np.array([103.94, 116.78, 123.68])] *)
Definition fill_mean (a : ndarray) : outcome ndarray :=
  match a with
  | Arr3 d0 d1 d2 _ => assign3 a 0 d0 0 d1 0 d2 (Arr3 1 1 3 [[MEANS]])
  | Arr2 _ _ _ => Raise IndexError
  end.

(** [height, width, channels = image.shape] *)
Definition unpack_shape3 (a : ndarray) : outcome (nat * nat * nat) :=
  match a with
  | Arr3 d0 d1 d2 _ => Return (d0, d1, d2)
  | Arr2 _ _ _ => Raise ValueError
  end.

(** ** The 4-tuple threaded through the transforms *)

Record label_bundle : Type := Labels { labels : list Z; num_crowds : Z }.

Record sample : Type := Sample {
  s_image : ndarray;
  s_masks : ndarray;
  s_boxes : list box;
  s_labels : label_bundle
}.

Definition transform : Type := sample -> M sample.

(** [Compose.__call__] *)
Fixpoint Compose (transforms : list transform) (s : sample) : M sample :=
  match transforms with
  | [] => ret s
  | t :: rest => s' <- t s ;; Compose rest s'
  end.

(** [ConvertFromInts]: the conversion of integer pixels to float32 is exact. *)
Definition ConvertFromInts : transform := fun s => ret s.

Definition map_x (f : fval -> fval) (b : box) : box :=
  Box (f (bx1 b)) (by1 b) (f (bx2 b)) (by2 b).
Definition map_y (f : fval -> fval) (b : box) : box :=
  Box (bx1 b) (f (by1 b)) (bx2 b) (f (by2 b)).

Definition ToAbsoluteCoords : transform := fun s =>
  lift (
    '(height, width, _) <~ unpack_shape3 (s_image s) ;;
    Return (Sample (s_image s) (s_masks s)
              (map (fun b => map_y (fun y => fmul y (of_nat height))
                               (map_x (fun x => fmul x (of_nat width)) b))
                   (s_boxes s))
              (s_labels s))).

Definition ToPercentCoords : transform := fun s =>
  lift (
    '(height, width, _) <~ unpack_shape3 (s_image s) ;;
    Return (Sample (s_image s) (s_masks s)
              (map (fun b => map_y (fun y => fdiv y (of_nat height))
                               (map_x (fun x => fdiv x (of_nat width)) b))
                   (s_boxes s))
              (s_labels s))).

(** [int(x)] truncates towards zero. *)
Definition py_int (x : Q) : Z := Z.quot (Qnum x) (Zpos (Qden x)).

Definition shape0 (a : ndarray) : nat :=
  match a with
  | Arr2 d0 _ _ => d0
  | Arr3 d0 _ _ _ => d0
  end.

(** [Pad.__call__] *)
Definition Pad (width height : Z) (pad_gt : bool) : transform := fun s =>
  lift (
    '(im_h, im_w, depth) <~ unpack_shape3 (s_image s) ;;
    z <~ np_zeros3 height width (Z.of_nat depth) ;;
    filled <~ fill_mean z ;;
    expand_image <~
      assign3 filled
        0 (slice_len (Z.to_nat height) 0 (Z.of_nat im_h))
        0 (slice_len (Z.to_nat width) 0 (Z.of_nat im_w))
        0 depth (s_image s) ;;
    masks <~
      (if pad_gt then
         zm <~ np_zeros3 (Z.of_nat (shape0 (s_masks s))) height width ;;
         assign3 zm
           0 (shape0 (s_masks s))
           0 (slice_len (Z.to_nat height) 0 (Z.of_nat im_h))
           0 (slice_len (Z.to_nat width) 0 (Z.of_nat im_w))
           (s_masks s)
       else Return (s_masks s)) ;;
    Return (Sample expand_image masks (s_boxes s) (s_labels s))).

Definition translate (dx dy : Z) (b : box) : box :=
  Box (fadd (bx1 b) (of_int dx)) (fadd (by1 b) (of_int dy))
      (fadd (bx2 b) (of_int dx)) (fadd (by2 b) (of_int dy)).

(** The body of [Expand.__call__] once [ratio], [left] and [top] are drawn. *)
Definition expand_at (s : sample) (height width depth : nat)
           (ratio left top : Q) : outcome sample :=
  let H := py_int (inject_Z (Z.of_nat height) * ratio) in
  let W := py_int (inject_Z (Z.of_nat width) * ratio) in
  let t0 := py_int top in
  let t1 := py_int (top + inject_Z (Z.of_nat height)) in
  let l0 := py_int left in
  let l1 := py_int (left + inject_Z (Z.of_nat width)) in
  z <~ np_zeros3 H W (Z.of_nat depth) ;;
  filled <~ fill_mean z ;;
  expand_image <~
    assign3 filled
      (slice_start (Z.to_nat H) t0 t1) (slice_len (Z.to_nat H) t0 t1)
      (slice_start (Z.to_nat W) l0 l1) (slice_len (Z.to_nat W) l0 l1)
      0 depth (s_image s) ;;
  zm <~ np_zeros3 (Z.of_nat (shape0 (s_masks s))) H W ;;
  expand_masks <~
    assign3 zm
      0 (shape0 (s_masks s))
      (slice_start (Z.to_nat H) t0 t1) (slice_len (Z.to_nat H) t0 t1)
      (slice_start (Z.to_nat W) l0 l1) (slice_len (Z.to_nat W) l0 l1)
      (s_masks s) ;;
  Return (Sample expand_image expand_masks
            (map (translate l0 t0) (s_boxes s)) (s_labels s)).

(** [Expand.__call__] *)
Definition Expand : transform := fun s =>
  coin <- random_randint01 ;;
  if coin then
    ' (height, width, depth) <- lift (unpack_shape3 (s_image s)) ;;
    ratio <- random_uniform 1 4 ;;
    left <- random_uniform 1
              (inject_Z (Z.of_nat width) * ratio - inject_Z (Z.of_nat width)) ;;
    top <- random_uniform 1
             (inject_Z (Z.of_nat height) * ratio - inject_Z (Z.of_nat height)) ;;
    lift (expand_at s height width depth ratio left top)
  else ret s.

(** [a[:, ::-1]] and [a[:, :, ::-1]] *)
Definition flip_axis1 (a : ndarray) : ndarray :=
  match a with
  | Arr2 d0 d1 v => Arr2 d0 d1 (map (@rev Q) v)
  | Arr3 d0 d1 d2 v => Arr3 d0 d1 d2 (map (@rev (list Q)) v)
  end.

Definition flip_axis2 (a : ndarray) : outcome ndarray :=
  match a with
  | Arr2 _ _ _ => Raise IndexError
  | Arr3 d0 d1 d2 v => Return (Arr3 d0 d1 d2 (map (map (@rev Q)) v))
  end.

(** [boxes[:, 0::2] = width - boxes[:, 2::-2]] *)
Definition reflect (width : nat) (b : box) : box :=
  Box (fsub (of_nat width) (bx2 b)) (by1 b)
      (fsub (of_nat width) (bx1 b)) (by2 b).

(** The mirroring branch of [RandomMirror.__call__]. *)
Definition mirror (width : nat) (s : sample) : outcome sample :=
  masks <~ flip_axis2 (s_masks s) ;;
  Return (Sample (flip_axis1 (s_image s)) masks
            (map (reflect width) (s_boxes s)) (s_labels s)).

(** [RandomMirror.__call__] *)
Definition RandomMirror : transform := fun s =>
  ' (_, width, _) <- lift (unpack_shape3 (s_image s)) ;;
  coin <- random_randint01 ;;
  if coin then lift (mirror width s) else ret s.

(** ** RandomSampleCrop *)

(** The integer rectangle [np.array([x1, y1, x2, y2])]. *)
Record rect : Type := Rect { rc0 : Z; rc1 : Z; rc2 : Z; rc3 : Z }.

Definition box_of_rect (r : rect) : box :=
  Box (of_int (rc0 r)) (of_int (rc1 r)) (of_int (rc2 r)) (of_int (rc3 r)).

(** [sample_options]: [None] is the whole image, a pair is [(min_iou, max_iou)]. *)
Definition sample_options : list (option (option Q * option Q)) :=
  [ None;
    Some (Some (1 # 10), None);
    Some (Some (3 # 10), None);
    Some (Some (7 # 10), None);
    Some (Some (9 # 10), None);
    Some (None, None) ].

Definition min_iou_of (m : option Q) : fval :=
  match m with Some q => Fin q | None => NInf end.
Definition max_iou_of (m : option Q) : fval :=
  match m with Some q => Fin q | None => PInf end.

(** [a.min()] and [a.max()]: an empty array raises, NaN propagates. *)
Definition array_min (a : list fval) : outcome fval :=
  match a with
  | [] => Raise ValueError
  | x :: xs => Return (fold_left fminimum xs x)
  end.

Definition array_max (a : list fval) : outcome fval :=
  match a with
  | [] => Raise ValueError
  | x :: xs => Return (fold_left fmaximum xs x)
  end.

(** [overlap.min() < min_iou and max_iou < overlap.max()] *)
Definition overlap_rejects (overlap : list fval) (min_iou max_iou : fval)
  : outcome bool :=
  lo <~ array_min overlap ;;
  if flt lo min_iou then
    hi <~ array_max overlap ;;
    Return (flt max_iou hi)
  else Return false.

(** Boolean-array indexing [a[mask]] along the first axis. *)
Fixpoint select {A : Type} (mask : list bool) (a : list A) : list A :=
  match mask, a with
  | m :: mask', x :: a' => if m then x :: select mask' a' else select mask' a'
  | _, _ => []
  end.

Definition bool_index {A : Type} (mask : list bool) (a : list A)
  : outcome (list A) :=
  if Nat.eqb (length mask) (length a) then Return (select mask a)
  else Raise IndexError.

Definition center_x (b : box) : fval := fdiv (fadd (bx1 b) (bx2 b)) (Fin 2).
Definition center_y (b : box) : fval := fdiv (fadd (by1 b) (by2 b)) (Fin 2).

(** [mask = m1 * m2]: the centre lies strictly inside the rectangle. *)
Definition center_mask (r : rect) (b : box) : bool :=
  (flt (of_int (rc0 r)) (center_x b) && flt (of_int (rc1 r)) (center_y b)) &&
  (flt (center_x b) (of_int (rc2 r)) && flt (center_y b) (of_int (rc3 r))).

(** [crowd_mask]: zeros, with [crowd_mask[-num_crowds:] = 1] when
    [num_crowds > 0]. *)
Definition crowd_mask (n : nat) (num_crowds : Z) : list Z :=
  tab n (fun i =>
    if ((0 <? num_crowds) && (Z.of_nat n - num_crowds <=? Z.of_nat i))%Z
    then 1%Z else 0%Z).

Definition np_sum (l : list Z) : Z := fold_right Z.add 0%Z l.

Definition any (l : list bool) : bool := existsb (fun b => b) l.

Definition slice_of {A : Type} (n : nat) (a b : Z) (l : list A) : list A :=
  firstn (slice_len n a b) (skipn (slice_start n a b) l).

(** [image[rect[1]:rect[3], rect[0]:rect[2], :]] *)
Definition crop_image (r : rect) (image : ndarray) : outcome ndarray :=
  match image with
  | Arr2 _ _ _ => Raise IndexError
  | Arr3 h w c v =>
      Return (Arr3 (slice_len h (rc1 r) (rc3 r)) (slice_len w (rc0 r) (rc2 r)) c
                (map (slice_of w (rc0 r) (rc2 r)) (slice_of h (rc1 r) (rc3 r) v)))
  end.

(** The number of [True] entries of a boolean array. *)
Definition count_true (mask : list bool) : nat :=
  length (filter (fun m => m) mask).

(** [masks[mask, :, :]] *)
Definition select_masks (mask : list bool) (masks : ndarray) : outcome ndarray :=
  match masks with
  | Arr2 _ _ _ => Raise IndexError
  | Arr3 n h w v =>
      if Nat.eqb (length mask) n
      then Return (Arr3 (count_true mask) h w (select mask v))
      else Raise IndexError
  end.

(** [masks[:, rect[1]:rect[3], rect[0]:rect[2]]] *)
Definition crop_masks (r : rect) (masks : ndarray) : outcome ndarray :=
  match masks with
  | Arr2 _ _ _ => Raise IndexError
  | Arr3 n h w v =>
      Return (Arr3 n (slice_len h (rc1 r) (rc3 r)) (slice_len w (rc0 r) (rc2 r))
                (map (fun m => map (slice_of w (rc0 r) (rc2 r))
                                   (slice_of h (rc1 r) (rc3 r) m)) v))
  end.

(** Clip a box to the rectangle and move it to the crop's frame. *)
Definition clip_to (r : rect) (b : box) : box :=
  Box (fsub (fmaximum (bx1 b) (of_int (rc0 r))) (of_int (rc0 r)))
      (fsub (fmaximum (by1 b) (of_int (rc1 r))) (of_int (rc1 r)))
      (fsub (fminimum (bx2 b) (of_int (rc2 r))) (of_int (rc0 r)))
      (fsub (fminimum (by2 b) (of_int (rc3 r))) (of_int (rc1 r))).

(** [not mask.any() or np.sum(1 - crowd_mask[mask]) == 0] *)
Definition no_regular_survivor (s : sample) (r : rect) : bool :=
  let mask := map (center_mask r) (s_boxes s) in
  let crowd_mask := crowd_mask (length mask) (num_crowds (s_labels s)) in
  negb (any mask) ||
  Z.eqb (np_sum (map (fun c => 1 - c)%Z (select mask crowd_mask))) 0.

(** One trial of the inner loop once the rectangle is known: [None] stands
    for [continue]. *)
Definition crop_at (s : sample) (r : rect) (min_iou max_iou : fval)
  : outcome (option sample) :=
  let boxes := s_boxes s in
  let overlap := jaccard_numpy boxes (box_of_rect r) in
  rejected <~ overlap_rejects overlap min_iou max_iou ;;
  if rejected then Return None else
  current_image <~ crop_image r (s_image s) ;;
  let mask := map (center_mask r) boxes in
  let num_crowds := num_crowds (s_labels s) in
  let crowd_mask := crowd_mask (length mask) num_crowds in
  if no_regular_survivor s r then Return None else
  selected_masks <~ select_masks mask (s_masks s) ;;
  let current_boxes := select mask boxes in
  current_ids <~ bool_index mask (labels (s_labels s)) ;;
  let current_labels :=
    Labels current_ids
      (if (0 <? num_crowds)%Z then np_sum (select mask crowd_mask)
       else num_crowds) in
  current_masks <~ crop_masks r selected_masks ;;
  Return (Some (Sample current_image current_masks
                  (map (clip_to r) current_boxes) current_labels)).

(** One iteration of [for _ in range(50)]. *)
Definition crop_trial (s : sample) (height width : nat)
           (min_iou max_iou : fval) : M (option sample) :=
  let fw := inject_Z (Z.of_nat width) in
  let fh := inject_Z (Z.of_nat height) in
  w <- random_uniform ((3 # 10) * fw) fw ;;
  h <- random_uniform ((3 # 10) * fh) fh ;;
  if Qeq_bool w 0 then lift (Raise ZeroDivisionError)
  else if Qlt_bool (h / w) (1 # 2) || Qlt_bool 2 (h / w) then ret None
  else
    left <- random_uniform 1 (fw - w) ;;
    top <- random_uniform 1 (fh - h) ;;
    lift (crop_at s
            (Rect (py_int left) (py_int top) (py_int (left + w)) (py_int (top + h)))
            min_iou max_iou).

Fixpoint crop_trials (n : nat) (s : sample) (height width : nat)
         (min_iou max_iou : fval) : M (option sample) :=
  match n with
  | O => ret None
  | S n' =>
      r <- crop_trial s height width min_iou max_iou ;;
      match r with
      | Some s' => ret (Some s')
      | None => crop_trials n' s height width min_iou max_iou
      end
  end.

(** The [while True] loop, cut after [fuel] modes. *)
Fixpoint crop_loop (fuel : nat) (s : sample) (height width : nat) : M sample :=
  match fuel with
  | O => fun _ => Exhausted
  | S fuel' =>
      mode <- random_choice sample_options ;;
      match mode with
      | None => ret s
      | Some (lo, hi) =>
          r <- crop_trials 50 s height width (min_iou_of lo) (max_iou_of hi) ;;
          match r with
          | Some s' => ret s'
          | None => crop_loop fuel' s height width
          end
      end
  end.

(** [RandomSampleCrop.__call__] *)
Definition RandomSampleCrop (fuel : nat) : transform := fun s =>
  ' (height, width, _) <- lift (unpack_shape3 (s_image s)) ;;
  crop_loop fuel s height width.

(** ** Resize, normalisation and the validation preset *)

(** [masks.transpose((1, 2, 0))] and [masks.transpose((2, 0, 1))] *)
Definition transpose_120 (a : ndarray) : outcome ndarray :=
  match a with
  | Arr2 _ _ _ => Raise ValueError
  | Arr3 d0 d1 d2 v =>
      Return (Arr3 d1 d2 d0
                (tab d1 (fun i => tab d2 (fun j => tab d0 (fun k => get3 v k i j)))))
  end.

Definition transpose_201 (a : ndarray) : outcome ndarray :=
  match a with
  | Arr2 _ _ _ => Raise ValueError
  | Arr3 d0 d1 d2 v =>
      Return (Arr3 d2 d0 d1
                (tab d2 (fun i => tab d0 (fun j => tab d1 (fun k => get3 v j k i)))))
  end.

(** [np.expand_dims(a, 0)] of a rank-2 array *)
Definition expand_dims0 (d0 d1 : nat) (v : list (list Q)) : ndarray :=
  Arr3 1 d0 d1 [v].

Definition scale (sx sy : Q) (b : box) : box :=
  Box (fmul (bx1 b) (Fin sx)) (fmul (by1 b) (Fin sy))
      (fmul (bx2 b) (Fin sx)) (fmul (by2 b) (Fin sy)).

(** [a / b] on Python integers *)
Definition py_truediv (a b : Z) : outcome Q :=
  if Z.eqb b 0 then Raise ZeroDivisionError
  else Return (inject_Z a / inject_Z b).

(** [(img - mean) / std] followed by [img[:, :, (2, 1, 0)]] *)
Definition normalize_to_rgb (img : ndarray) : outcome ndarray :=
  match img with
  | Arr2 d0 d1 _ =>
      if broadcasts d1 3 then Raise IndexError else Raise ValueError
  | Arr3 d0 d1 c v =>
      if Nat.eqb c 3 || Nat.eqb c 1 then
        Return (Arr3 d0 d1 3
          (tab d0 (fun i => tab d1 (fun j => tab 3 (fun k =>
             let ch := (2 - k)%nat in
             (get3 v i j (if Nat.eqb c 1 then 0%nat else ch) - nth ch MEANS 0)
             / nth ch STD 1)))))
      else Raise ValueError
  end.

(** [NormalizeAndToRGB.__call__] *)
Definition NormalizeAndToRGB : transform := fun s =>
  lift (
    img <~ normalize_to_rgb (s_image s) ;;
    Return (Sample img (s_masks s) (s_boxes s) (s_labels s))).

Section OpenCV.

(** [cv2.resize(src, (width, height))], outside this module. *)
Variable cv2_resize : ndarray -> Z -> Z -> outcome ndarray.

(** [Resize.__call__] *)
Definition Resize (img_size : Z) (resize_gt : bool) : transform := fun s =>
  lift (
    ' (img_h, img_w, _) <~ unpack_shape3 (s_image s) ;;
    let width := img_size in
    let height := img_size in
    image <~ cv2_resize (s_image s) width height ;;
    if resize_gt then
      transposed <~ transpose_120 (s_masks s) ;;
      resized <~ cv2_resize transposed width height ;;
      masks <~
        match resized with
        | Arr2 d0 d1 v => Return (expand_dims0 d0 d1 v)
        | Arr3 _ _ _ _ => transpose_201 resized
        end ;;
      sx <~ py_truediv width (Z.of_nat img_w) ;;
      sy <~ py_truediv height (Z.of_nat img_h) ;;
      Return (Sample image masks (map (scale sx sy) (s_boxes s)) (s_labels s))
    else Return (Sample image (s_masks s) (s_boxes s) (s_labels s))).

(** [ValAug]: [cfg.img_size] is the only configuration. *)
Definition ValAug (img_size : Z) : transform :=
  Compose [ ConvertFromInts;
            Resize img_size false;
            Pad img_size img_size false;
            NormalizeAndToRGB ].

End OpenCV.

(** A nearest-neighbour stand-in for [cv2.resize], used to run the
    pipeline on concrete inputs: a single channel comes back without its
    channel axis, as OpenCV returns it. *)
Definition nearest_resize (src : ndarray) (width height : Z) : outcome ndarray :=
  if ((width <=? 0) || (height <=? 0))%Z then Raise CvError else
  let h := Z.to_nat height in
  let w := Z.to_nat width in
  match src with
  | Arr2 d0 d1 v =>
      if Nat.eqb d0 0 || Nat.eqb d1 0 then Raise CvError else
      Return (Arr2 h w
        (tab h (fun i => tab w (fun j =>
           nth (j * d1 / w) (nth (i * d0 / h) v []) 0))))
  | Arr3 d0 d1 c v =>
      if Nat.eqb d0 0 || Nat.eqb d1 0 || Nat.eqb c 0 then Raise CvError else
      if Nat.eqb c 1 then
        Return (Arr2 h w
          (tab h (fun i => tab w (fun j => get3 v (i * d0 / h) (j * d1 / w) 0))))
      else
        Return (Arr3 h w c
          (tab h (fun i => tab w (fun j => tab c (fun k =>
             get3 v (i * d0 / h) (j * d1 / w) k)))))
  end.

(** What the properties below need of [cv2.resize]: the result has
    [height] rows and [width] columns. *)
Definition resizes_to_dsize (cv2_resize : ndarray -> Z -> Z -> outcome ndarray)
  : Prop :=
  forall src width height dst,
    cv2_resize src width height = Return dst ->
    firstn 2 (shape dst) = [Z.to_nat height; Z.to_nat width].

(** [masks.shape[1:] == image.shape[:2]] *)
Definition aligned (s : sample) : Prop :=
  tl (shape (s_masks s)) = firstn 2 (shape (s_image s)).

(** [len(boxes) == len(masks) == len(labels['labels'])] *)
Definition same_length (s : sample) : Prop :=
  length (s_boxes s) = shape0 (s_masks s) /\
  shape0 (s_masks s) = length (labels (s_labels s)).

(** ** Vocabulary of the statements *)

(** Minimum, maximum and clipping at zero on finite values, and the
    intersection area of two finite boxes. *)
Definition qmin (a b : Q) : Q := if Qlt_bool b a then b else a.
Definition qmax (a b : Q) : Q := if Qlt_bool a b then b else a.
Definition qclip (d : Q) : Q := qmax d 0.
Definition qinter (a1 b1 a2 b2 c1 d1 c2 d2 : Q) : Q :=
  qclip (qmin a2 c2 + - qmax a1 c1) * qclip (qmin b2 d2 + - qmax b1 d1).

(** The value of a run, without the tape it leaves. *)
Definition value_of {A : Type} (o : outcome (A * tape)) : outcome A :=
  match o with
  | Return (a, _) => Return a
  | Raise e => Raise e
  | Exhausted => Exhausted
  end.


(** A transform that never reads the random source. *)
Definition draws_nothing (f : transform) : Prop :=
  exists g : sample -> outcome sample, forall s t, f s t = lift (g s) t.

(** A box inside [[0, rect_x2 - rect_x1] x [0, rect_y2 - rect_y1]]. *)
Definition between (lo hi x : fval) : Prop :=
  fle lo x = true /\ fle x hi = true.

Definition within_crop (r : rect) (b : box) : Prop :=
  let crop_width := of_int (rc2 r - rc0 r) in
  let crop_height := of_int (rc3 r - rc1 r) in
  between (Fin 0) crop_width (bx1 b) /\ between (Fin 0) crop_width (bx2 b) /\
  between (Fin 0) crop_height (by1 b) /\ between (Fin 0) crop_height (by2 b).

(** The crowd convention of the label bundle: the last [num_crowds]
    annotations are the crowd entries. *)
Definition crowd_convention (s : sample) : Prop :=
  (0 <= num_crowds (s_labels s) <= Z.of_nat (length (s_boxes s)))%Z.

(** ** Concrete samples *)

Definition demo_image : ndarray :=
  Arr3 10 10 3
    (tab 10 (fun i => tab 10 (fun j =>
       [inject_Z (Z.of_nat i); inject_Z (Z.of_nat j); 0]))).

Definition demo_masks (n : nat) : ndarray :=
  Arr3 n 10 10 (tab n (fun _ => tab 10 (fun _ => tab 10 (fun _ => 1)))).

(** Two annotations centred at (5, 5); the second one is a crowd. *)
Definition demo_sample : sample :=
  Sample demo_image (demo_masks 2)
         [Box (Fin 4) (Fin 4) (Fin 6) (Fin 6); Box (Fin 0) (Fin 0) (Fin 10) (Fin 10)]
         (Labels [1%Z; 2%Z] 1).

(** The draws that pick the unconstrained mode and the rectangle
    [(3, 3, 7, 7)] on a 10 x 10 image. *)
Definition demo_tape : tape := [5 # 6; 1 # 7; 1 # 7; 2 # 5; 2 # 5].

(** What the run of [RandomSampleCrop] on [demo_sample] returns. *)
Definition demo_cropped : sample :=
  Eval vm_compute in
    match RandomSampleCrop 1 demo_sample demo_tape with
    | Return (s, _) => s
    | _ => demo_sample
    end.

(** One annotation whose corners are stored the wrong way round on the
    x axis; its centre is (5, 5). *)
Definition demo_inverted : sample :=
  Sample demo_image (demo_masks 1)
         [Box (Fin 9) (Fin 4) (Fin 1) (Fin 6)]
         (Labels [1%Z] 0).

(** ** Further vocabulary *)

(** A finite box given by its four rational corners. *)
Definition qbox (x1 y1 x2 y2 : Q) : box := Box (Fin x1) (Fin y1) (Fin x2) (Fin y2).

(** The planes [a[0], a[1], ...] of a rank-3 array. *)
Definition planes (a : ndarray) : list (list (list Q)) :=
  match a with
  | Arr2 _ _ _ => []
  | Arr3 _ _ _ v => v
  end.

(** [a[i, j, k]] of a rank-3 array, 0 outside of it. *)
Definition at3 (a : ndarray) (i j k : nat) : Q := get3 (planes a) i j k.

(** One mask cut at the rectangle, as [crop_masks] cuts each of them. *)
Definition crop_plane (h w : nat) (r : rect) (m : list (list Q)) : list (list Q) :=
  map (slice_of w (rc0 r) (rc2 r)) (slice_of h (rc1 r) (rc3 r) m).

(** [demo_sample] with both annotations marked as crowd entries. *)
Definition demo_crowds : sample :=
  Sample demo_image (demo_masks 2) (s_boxes demo_sample) (Labels [1%Z; 2%Z] 2).

(** The draws of one unconstrained mode whose fifty trials all propose the
    rectangle [(3, 3, 7, 7)], followed by the draw of the whole-image mode. *)
Definition demo_long_tape : tape :=
  (5 # 6) :: concat (repeat [1 # 7; 1 # 7; 2 # 5; 2 # 5] 50) ++ [0].

(** A tape of numbers that [random()] can return. *)
Definition valid_tape (t : tape) : Prop := Forall (fun u => 0 <= u < 1) t.


(** ** Photometric transforms *)

(** [image op= x]: the same operation on every element. *)
Definition map_elements (f : Q -> Q) (a : ndarray) : ndarray :=
  match a with
  | Arr2 d0 d1 v => Arr2 d0 d1 (map (map f) v)
  | Arr3 d0 d1 d2 v => Arr3 d0 d1 d2 (map (map (map f)) v)
  end.

Fixpoint update (c : nat) (f : Q -> Q) (p : list Q) : list Q :=
  match p, c with
  | [], _ => []
  | x :: p', O => f x :: p'
  | x :: p', S c' => x :: update c' f p'
  end.

(** [image[:, :, c] op= x]: channel [c] has to exist. *)
Definition map_channel (c : nat) (f : Q -> Q) (a : ndarray) : outcome ndarray :=
  match a with
  | Arr2 _ _ _ => Raise IndexError
  | Arr3 d0 d1 d2 v =>
      if (c <? d2)%nat then Return (Arr3 d0 d1 d2 (map (map (update c f)) v))
      else Raise IndexError
  end.

Definition with_image (s : sample) (image : ndarray) : sample :=
  Sample image (s_masks s) (s_boxes s) (s_labels s).

(** The assertions of [RandomContrast.__init__] and
    [RandomSaturation.__init__], of [RandomHue.__init__] and of
    [RandomBrightness.__init__]. *)
Definition bounds_accepted (lower upper : Q) : bool :=
  Qle_bool lower upper && Qle_bool 0 lower.
Definition hue_delta_accepted (delta : Q) : bool :=
  Qle_bool 0 delta && Qle_bool delta 360.
Definition brightness_delta_accepted (delta : Q) : bool :=
  Qle_bool 0 delta && Qle_bool delta 255.

(** [RandomSaturation.__call__] *)
Definition RandomSaturation (lower upper : Q) : transform := fun s =>
  coin <- random_randint01 ;;
  if coin then
    x <- random_uniform lower upper ;;
    image <- lift (map_channel 1 (fun p => p * x) (s_image s)) ;;
    ret (with_image s image)
  else ret s.

(** The three statements of [RandomHue.__call__] on one hue value. *)
Definition shift_hue (x h : Q) : Q :=
  let h1 := h + x in
  let h2 := if Qlt_bool 360 h1 then h1 - 360 else h1 in
  if Qlt_bool h2 0 then h2 + 360 else h2.

(** [RandomHue.__call__] *)
Definition RandomHue (delta : Q) : transform := fun s =>
  coin <- random_randint01 ;;
  if coin then
    x <- random_uniform (- delta) delta ;;
    image <- lift (map_channel 0 (shift_hue x) (s_image s)) ;;
    ret (with_image s image)
  else ret s.

(** [RandomLightingNoise.__call__] *)
Definition RandomLightingNoise : transform := fun s => ret s.

(** [RandomContrast.__call__] *)
Definition RandomContrast (lower upper : Q) : transform := fun s =>
  coin <- random_randint01 ;;
  if coin then
    alpha <- random_uniform lower upper ;;
    ret (with_image s (map_elements (fun p => p * alpha) (s_image s)))
  else ret s.

(** [RandomBrightness.__call__] *)
Definition RandomBrightness (delta : Q) : transform := fun s =>
  coin <- random_randint01 ;;
  if coin then
    d <- random_uniform (- delta) delta ;;
    ret (with_image s (map_elements (fun p => p + d) (s_image s)))
  else ret s.

(** The two conversions [ConvertColor] supports; for any other pair of
    colour spaces its call raises [NotImplementedError], which the
    pipeline never reaches. *)
Inductive cvt_code : Type :=
| COLOR_BGR2HSV
| COLOR_HSV2BGR.

Section Pipelines.

(** [cv2.cvtColor] and [cv2.resize], outside this module. *)
Variable cv2_cvtColor : ndarray -> cvt_code -> outcome ndarray.
Variable cv2_resize : ndarray -> Z -> Z -> outcome ndarray.

(** [ConvertColor.__call__] of [ConvertColor(transform='HSV')] and of
    [ConvertColor(current='HSV', transform='BGR')]. *)
Definition ConvertColor (code : cvt_code) : transform := fun s =>
  image <- lift (cv2_cvtColor (s_image s) code) ;;
  ret (with_image s image).

(** [self.pd] with the default parameters of its transforms. *)
Definition pd : list transform :=
  [ RandomContrast (1 # 2) (3 # 2);
    ConvertColor COLOR_BGR2HSV;
    RandomSaturation (1 # 2) (3 # 2);
    RandomHue 18;
    ConvertColor COLOR_HSV2BGR;
    RandomContrast (1 # 2) (3 # 2) ].

(** [PhotometricDistort.__call__] *)
Definition PhotometricDistort : transform := fun s =>
  s1 <- RandomBrightness 32 s ;;
  coin <- random_randint01 ;;
  let distort := if coin then Compose (removelast pd) else Compose (tl pd) in
  s2 <- distort s1 ;;
  RandomLightingNoise s2.

(** [TrainAug]; [fuel] bounds the modes [RandomSampleCrop] may try. *)
Definition TrainAug (fuel : nat) (img_size : Z) : transform :=
  Compose [ ConvertFromInts;
            ToAbsoluteCoords;
            PhotometricDistort;
            Expand;
            RandomSampleCrop fuel;
            RandomMirror;
            Resize cv2_resize img_size true;
            Pad img_size img_size true;
            ToPercentCoords;
            NormalizeAndToRGB ].

End Pipelines.

(** What the end-to-end properties need of [cv2.resize]: the result has
    the requested height and width, the channels of the source when there
    are several, and no channel axis when there is one. *)
Definition resize_contract (cv2_resize : ndarray -> Z -> Z -> outcome ndarray)
  : Prop :=
  forall src width height dst,
    cv2_resize src width height = Return dst ->
    shape dst =
      match shape src with
      | [_; _; c] => if Nat.eqb c 1 then [Z.to_nat height; Z.to_nat width]
                     else [Z.to_nat height; Z.to_nat width; c]
      | _ => [Z.to_nat height; Z.to_nat width]
      end.

(** A stand-in for [cv2.cvtColor] that keeps the pixels as they are. *)
Definition keep_colors (src : ndarray) (code : cvt_code) : outcome ndarray :=
  Return src.

(** Every hue value (channel 0) lies in [[0, 360]]. *)
Definition hue_in_range (a : ndarray) : Prop :=
  forall i j, 0 <= at3 a i j 0 <= 360.

(** A transform that returns masks, boxes and labels as it got them. *)
Definition keeps_ground_truth (f : transform) : Prop :=
  forall s t s' t',
    f s t = Return (s', t') ->
    s_masks s' = s_masks s /\ s_boxes s' = s_boxes s /\ s_labels s' = s_labels s.

(** A transform that returns an image of the shape it got. *)
Definition keeps_image_shape (f : transform) : Prop :=
  forall s t s' t',
    f s t = Return (s', t') -> shape (s_image s') = shape (s_image s).

(** Annotation arrays of one length, with a crowd count they can hold. *)
Definition annotations_consistent (s : sample) : Prop :=
  same_length s /\ crowd_convention s.

(** Stand-in draws for a training run on [demo_sample]: brightness,
    saturation and contrast are applied, the sample is not expanded, it is
    cropped at [(3, 3, 7, 7)] and mirrored. *)
Definition demo_train_tape : tape :=
  [3 # 4; 1 # 2; 1 # 4; 3 # 4; 1 # 2; 1 # 4; 3 # 4; 1 # 2]
  ++ [1 # 4] ++ demo_tape ++ [3 # 4].

(** [demo_sample] with its boxes in percent coordinates. *)
Definition demo_percent_sample : sample :=
  Sample demo_image (demo_masks 2)
         [qbox (2 # 5) (2 # 5) (3 # 5) (3 # 5); qbox 0 0 1 1]
         (Labels [1%Z; 2%Z] 1).






(** * Properties *)

(** ** Rational comparisons *)

Lemma Qlt_bool_iff (a b : Q) : Qlt_bool a b = true <-> a < b.
Proof.
  unfold Qlt_bool. rewrite negb_true_iff.
  split; intro H.
  - apply Qnot_le_lt. intro Hle. apply Qle_bool_iff in Hle. congruence.
  - destruct (Qle_bool b a) eqn:E; [|reflexivity].
    apply Qle_bool_iff in E. apply Qle_not_lt in E. contradiction.
Qed.

Lemma Qlt_bool_false (a b : Q) : Qlt_bool a b = false <-> b <= a.
Proof.
  unfold Qlt_bool. rewrite negb_false_iff. apply Qle_bool_iff.
Qed.

Lemma Qle_bool_false (a b : Q) : Qle_bool a b = false <-> b < a.
Proof.
  rewrite <- Qlt_bool_iff. unfold Qlt_bool. rewrite negb_true_iff. reflexivity.
Qed.

Lemma Qeq_bool_false (a b : Q) : Qeq_bool a b = false <-> ~ a == b.
Proof.
  split; intro H.
  - intro E. apply Qeq_bool_iff in E. congruence.
  - destruct (Qeq_bool a b) eqn:E; [|reflexivity].
    apply Qeq_bool_iff in E. contradiction.
Qed.

(** Turns every boolean rational test of the goal and context into the
    order fact it decides. *)
Ltac qbool :=
  repeat match goal with
  | H : Qlt_bool _ _ = true |- _ => apply Qlt_bool_iff in H
  | H : Qlt_bool _ _ = false |- _ => apply Qlt_bool_false in H
  | H : Qle_bool _ _ = true |- _ => apply Qle_bool_iff in H
  | H : Qle_bool _ _ = false |- _ => apply Qle_bool_false in H
  | H : Qeq_bool _ _ = true |- _ => apply Qeq_bool_iff in H
  | H : Qeq_bool _ _ = false |- _ => apply Qeq_bool_false in H
  end.

Ltac qcase :=
  repeat match goal with
  | |- context [Qlt_bool ?a ?b] =>
      let E := fresh "E" in destruct (Qlt_bool a b) eqn:E
  | |- context [Qle_bool ?a ?b] =>
      let E := fresh "E" in destruct (Qle_bool a b) eqn:E
  | |- context [Qeq_bool ?a ?b] =>
      let E := fresh "E" in destruct (Qeq_bool a b) eqn:E
  end; qbool.

(** ** Overlap of finite boxes *)


Lemma fminimum_fin a b : fminimum (Fin a) (Fin b) = Fin (qmin a b).
Proof. unfold fminimum, qmin, flt. destruct (Qlt_bool b a); reflexivity. Qed.

Lemma fmaximum_fin a b : fmaximum (Fin a) (Fin b) = Fin (qmax a b).
Proof. unfold fmaximum, qmax, flt. destruct (Qlt_bool a b); reflexivity. Qed.

Lemma clip0_fin d : clip0 (Fin d) = Fin (qclip d).
Proof. unfold clip0. rewrite fmaximum_fin. reflexivity. Qed.

Lemma qclip_bounds d : 0 <= qclip d /\ d <= qclip d /\ (0 <= d -> qclip d == d).
Proof.
  unfold qclip, qmax. destruct (Qlt_bool d 0) eqn:E; qbool; repeat split; intros; lra.
Qed.


Lemma intersect1_fin a1 b1 a2 b2 c1 d1 c2 d2 :
  intersect1 (Box (Fin a1) (Fin b1) (Fin a2) (Fin b2))
             (Box (Fin c1) (Fin d1) (Fin c2) (Fin d2))
  = Fin (qinter a1 b1 a2 b2 c1 d1 c2 d2).
Proof.
  unfold intersect1; cbn [bx1 bx2 by1 by2].
  rewrite !fminimum_fin, !fmaximum_fin. cbn [fsub fneg fadd].
  rewrite !clip0_fin. reflexivity.
Qed.

Lemma area_fin a1 b1 a2 b2 :
  area (Box (Fin a1) (Fin b1) (Fin a2) (Fin b2))
  = Fin ((a2 + - a1) * (b2 + - b1)).
Proof. reflexivity. Qed.

Lemma union1_fin a1 b1 a2 b2 c1 d1 c2 d2 :
  union1 (Box (Fin a1) (Fin b1) (Fin a2) (Fin b2))
         (Box (Fin c1) (Fin d1) (Fin c2) (Fin d2))
  = Fin ((a2 + - a1) * (b2 + - b1) + (c2 + - c1) * (d2 + - d1)
         + - qinter a1 b1 a2 b2 c1 d1 c2 d2).
Proof. unfold union1. rewrite intersect1_fin, !area_fin. reflexivity. Qed.



Lemma qinter_nonneg a1 b1 a2 b2 c1 d1 c2 d2 :
  0 <= qinter a1 b1 a2 b2 c1 d1 c2 d2.
Proof.
  unfold qinter.
  pose proof (qclip_bounds (qmin a2 c2 + - qmax a1 c1)) as [H1 _].
  pose proof (qclip_bounds (qmin b2 d2 + - qmax b1 d1)) as [H2 _].
  nra.
Qed.



Lemma qclip_zero d : d == 0 -> qclip d == 0.
Proof. intro H. unfold qclip, qmax. qcase; lra. Qed.










(** ** Coordinate spaces *)

Lemma fmul_fdiv_cancel (x : fval) (w : Q) :
  0 < w -> feq (fdiv (fmul x (Fin w)) (Fin w)) x.
Proof.
  intro Hw.
  assert (E0 : Qeq_bool w 0 = false) by (apply Qeq_bool_false; lra).
  assert (E1 : Qlt_bool w 0 = false) by (apply Qlt_bool_false; lra).
  destruct x; cbn; unfold signed_inf; rewrite ?E0, ?E1; cbn; rewrite ?E1; try exact I.
  field. lra.
Qed.

Lemma fdiv_fmul_cancel (x : fval) (w : Q) :
  0 < w -> feq (fmul (fdiv x (Fin w)) (Fin w)) x.
Proof.
  intro Hw.
  assert (E0 : Qeq_bool w 0 = false) by (apply Qeq_bool_false; lra).
  assert (E1 : Qlt_bool w 0 = false) by (apply Qlt_bool_false; lra).
  destruct x; cbn; unfold signed_inf; rewrite ?E0, ?E1; cbn;
    unfold signed_inf; rewrite ?E0, ?E1; try exact I.
  cbn. field. lra.
Qed.

Lemma of_nat_pos (n : nat) : (0 < n)%nat -> 0 < inject_Z (Z.of_nat n).
Proof.
  intro H. change 0 with (inject_Z 0). rewrite <- Zlt_Qlt. lia.
Qed.

Lemma boxes_eq_map (f : box -> box) (l : list box) :
  (forall b, box_eq (f b) b) -> boxes_eq (map f l) l.
Proof.
  intro H. unfold boxes_eq. induction l; cbn; constructor; auto.
Qed.

(** C6: on an image of positive height and width, converting the boxes to
    absolute coordinates and back to percent coordinates, or the other way
    round, gives the boxes one started from. *)
Theorem coords_round_trip (s : sample) (t : tape) (h w c : nat) v :
  s_image s = Arr3 h w c v -> (0 < h)%nat -> (0 < w)%nat ->
  (exists s', Compose [ToAbsoluteCoords; ToPercentCoords] s t = Return (s', t) /\
              boxes_eq (s_boxes s') (s_boxes s) /\ s_image s' = s_image s) /\
  (exists s', Compose [ToPercentCoords; ToAbsoluteCoords] s t = Return (s', t) /\
              boxes_eq (s_boxes s') (s_boxes s) /\ s_image s' = s_image s).
Proof.
  intros Him Hh Hw. destruct s as [im ms bs ls]. cbn in Him. subst im.
  apply of_nat_pos in Hh, Hw.
  split; eexists; (split; [reflexivity|]); cbn; (split; [|reflexivity]);
    rewrite map_map; apply boxes_eq_map; intros [x1 y1 x2 y2];
    unfold box_eq, map_x, map_y, of_nat, of_int; cbn [bx1 bx2 by1 by2];
    auto using fmul_fdiv_cancel, fdiv_fmul_cancel.
Qed.

Lemma coords_round_trip_witness :
  let s := Sample (Arr3 1 2 3 [[[0; 0; 0]; [0; 0; 0]]])
                  (Arr3 1 1 2 [[[1; 0]]])
                  [Box (Fin (1 # 4)) (Fin 0) (Fin (1 # 2)) (Fin 1)]
                  (Labels [7%Z] 0) in
  (exists s', Compose [ToAbsoluteCoords; ToPercentCoords] s [] = Return (s', []) /\
              boxes_eq (s_boxes s') (s_boxes s) /\ s_image s' = s_image s) /\
  (exists s', Compose [ToPercentCoords; ToAbsoluteCoords] s [] = Return (s', []) /\
              boxes_eq (s_boxes s') (s_boxes s) /\ s_image s' = s_image s).
Proof.
  intro s.
  apply (coords_round_trip s [] 1 2 3 [[[0; 0; 0]; [0; 0; 0]]]);
    [reflexivity | lia | lia].
Defined.

(** ** RandomMirror *)








(** ** The validation preset *)

Lemma lift_value_of {A : Type} (x : outcome A) (t : tape) :
  value_of (lift x t) = x.
Proof. destruct x; reflexivity. Qed.

Lemma lift_keeps_tape {A : Type} (x : outcome A) (t t' : tape) (a : A) :
  lift x t = Return (a, t') -> t' = t.
Proof. destruct x; cbn; intro H; inversion H; reflexivity. Qed.

Lemma Compose_draws_nothing (ts : list transform) :
  Forall draws_nothing ts -> draws_nothing (Compose ts).
Proof.
  induction 1 as [|f ts [g Hg] _ [gs Hgs]].
  - exists (fun s => Return s). reflexivity.
  - exists (fun s => obind (g s) gs). intros s t. cbn [Compose].
    unfold bind. rewrite Hg. destruct (g s); cbn; auto.
Qed.

Lemma lifted_draws_nothing (g : sample -> outcome sample) :
  draws_nothing (fun s => lift (g s)).
Proof. exists g. reflexivity. Qed.

Lemma ValAug_draws_nothing cv2_resize (img_size : Z) :
  draws_nothing (ValAug cv2_resize img_size).
Proof.
  apply Compose_draws_nothing. repeat constructor.
  - exists (fun s => Return s). reflexivity.
  - apply lifted_draws_nothing.
  - apply lifted_draws_nothing.
  - apply lifted_draws_nothing.
Qed.

(** C9: the validation pipeline never draws from the random source: two
    runs on the same input give the same result whatever the state of the
    source, and a run leaves the source as it found it. *)
Theorem ValAug_deterministic cv2_resize (img_size : Z) (s : sample) (t1 t2 : tape) :
  value_of (ValAug cv2_resize img_size s t1)
  = value_of (ValAug cv2_resize img_size s t2) /\
  (forall s' t', ValAug cv2_resize img_size s t1 = Return (s', t') -> t' = t1).
Proof.
  destruct (ValAug_draws_nothing cv2_resize img_size) as [g Hg].
  rewrite !Hg, !lift_value_of. split; [reflexivity|].
  intros s' t'. apply lift_keeps_tape.
Qed.

(** ** RandomSampleCrop: the overlap test *)

Lemma flt_PInf (x : fval) : flt PInf x = false.
Proof. destruct x; reflexivity. Qed.

Lemma sample_options_no_upper_bound lo hi :
  In (Some (lo, hi)) sample_options -> hi = None.
Proof.
  cbn. intros [H|[H|[H|[H|[H|[H|[]]]]]]]; congruence.
Qed.

Lemma overlap_rejects_unbounded (overlap : list fval) (min_iou : fval) :
  overlap_rejects overlap min_iou PInf =
  match overlap with [] => Raise ValueError | _ :: _ => Return false end.
Proof.
  destruct overlap as [|x xs]; [reflexivity|].
  unfold overlap_rejects. cbn [array_min array_max obind].
  destruct (flt _ min_iou); [|reflexivity].
  rewrite flt_PInf. reflexivity.
Qed.

(** C2, on the box sets that have a box: in every mode of
    [sample_options] other than the whole image, the overlap test of a
    candidate rectangle evaluates to false, so a candidate is discarded
    only when no regular annotation survives; on the empty box set the
    test raises, and in no case does it reject. *)
Theorem overlap_test_never_rejects
        (lo hi : option Q) (s : sample) (r : rect) :
  In (Some (lo, hi)) sample_options ->
  let overlap := jaccard_numpy (s_boxes s) (box_of_rect r) in
  let test := overlap_rejects overlap (min_iou_of lo) (max_iou_of hi) in
  test <> Return true /\
  (s_boxes s <> [] -> test = Return false) /\
  (s_boxes s = [] -> test = Raise ValueError) /\
  (crop_at s r (min_iou_of lo) (max_iou_of hi) = Return None ->
   no_regular_survivor s r = true).
Proof.
  intros Hin overlap test. apply sample_options_no_upper_bound in Hin. subst hi.
  assert (Ht : test = match s_boxes s with
                      | [] => Raise ValueError
                      | _ :: _ => Return false
                      end).
  { unfold test, overlap. cbn [max_iou_of]. rewrite overlap_rejects_unbounded.
    unfold jaccard_numpy. destruct (s_boxes s); reflexivity. }
  repeat split.
  - rewrite Ht. destruct (s_boxes s); discriminate.
  - intro Hne. rewrite Ht. destruct (s_boxes s); congruence.
  - intro He. rewrite Ht, He. reflexivity.
  - unfold crop_at. fold overlap. fold test. rewrite Ht.
    destruct (s_boxes s) eqn:Hb; cbn [obind]; [discriminate|].
    destruct (crop_image r (s_image s)); cbn [obind]; try discriminate.
    destruct (no_regular_survivor s r); [reflexivity|].
    destruct (select_masks _ _); cbn [obind]; try discriminate.
    destruct (bool_index _ _); cbn [obind]; try discriminate.
    destruct (crop_masks _ _); cbn [obind]; discriminate.
Qed.

Lemma overlap_test_never_rejects_witness :
  let overlap := jaccard_numpy (s_boxes demo_sample) (box_of_rect (Rect 3 3 7 7)) in
  let test := overlap_rejects overlap (Fin (9 # 10)) PInf in
  test <> Return true /\
  (s_boxes demo_sample <> [] -> test = Return false) /\
  (s_boxes demo_sample = [] -> test = Raise ValueError) /\
  (crop_at demo_sample (Rect 3 3 7 7) (Fin (9 # 10)) PInf = Return None ->
   no_regular_survivor demo_sample (Rect 3 3 7 7) = true).
Proof.
  apply (overlap_test_never_rejects (Some (9 # 10)) None demo_sample (Rect 3 3 7 7)).
  cbn. auto 10.
Defined.

(** C2 as stated, on every box set: with no box the overlap test does
    not evaluate to false, [overlap.min()] raises and the call ends there. *)
Lemma overlap_test_raises_without_boxes :
  let s := Sample demo_image (demo_masks 0) [] (Labels [] 0) in
  In (Some (None, None)) sample_options /\
  overlap_rejects (jaccard_numpy (s_boxes s) (box_of_rect (Rect 3 3 7 7)))
                  (min_iou_of None) (max_iou_of None) <> Return false /\
  RandomSampleCrop 1 s demo_tape = Raise ValueError.
Proof.
  cbn zeta. split; [cbn; auto 10|]. split; [discriminate|]. vm_compute. reflexivity.
Qed.

(** ** RandomSampleCrop: reading a successful run *)

Lemma bind_inv {A B : Type} (m : M A) (f : A -> M B) (t t' : tape) (b : B) :
  bind m f t = Return (b, t') ->
  exists a t1, m t = Return (a, t1) /\ f a t1 = Return (b, t').
Proof.
  unfold bind. destruct (m t) as [[a t1]| |]; try discriminate. eauto.
Qed.

Lemma lift_inv {A : Type} (x : outcome A) (t t' : tape) (a : A) :
  lift x t = Return (a, t') -> x = Return a /\ t' = t.
Proof. destruct x; cbn; intro H; inversion H; auto. Qed.

Lemma obind_inv {A B : Type} (x : outcome A) (f : A -> outcome B) (b : B) :
  obind x f = Return b -> exists a, x = Return a /\ f a = Return b.
Proof. destruct x; cbn; try discriminate. eauto. Qed.

Lemma ret_inv {A : Type} (a b : A) (t t' : tape) :
  ret a t = Return (b, t') -> a = b /\ t = t'.
Proof. unfold ret. intro H. inversion H. auto. Qed.

Lemma crop_trial_inv s height width lo hi t s' t' :
  crop_trial s height width lo hi t = Return (Some s', t') ->
  exists r, crop_at s r lo hi = Return (Some s').
Proof.
  unfold crop_trial. intro H.
  apply bind_inv in H as (w & t1 & _ & H).
  apply bind_inv in H as (h & t2 & _ & H).
  destruct (Qeq_bool w 0); [discriminate|].
  destruct (_ || _).
  { apply ret_inv in H as [H _]. discriminate. }
  apply bind_inv in H as (left & t3 & _ & H).
  apply bind_inv in H as (top & t4 & _ & H).
  apply lift_inv in H as [H _]. eauto.
Qed.

Lemma crop_trials_inv n s height width lo hi t s' t' :
  crop_trials n s height width lo hi t = Return (Some s', t') ->
  exists r, crop_at s r lo hi = Return (Some s').
Proof.
  revert t. induction n as [|n IH]; intros t H; cbn [crop_trials] in H.
  - apply ret_inv in H as [H _]. discriminate.
  - apply bind_inv in H as ([s1|] & t1 & H1 & H).
    + apply ret_inv in H as [H _]. injection H as ->.
      eapply crop_trial_inv; eauto.
    + eauto.
Qed.

Lemma crop_loop_inv fuel s height width t s' t' :
  crop_loop fuel s height width t = Return (s', t') ->
  s' = s \/
  exists r lo hi, In (Some (lo, hi)) sample_options /\
                  crop_at s r (min_iou_of lo) (max_iou_of hi) = Return (Some s').
Proof.
  revert t. induction fuel as [|fuel IH]; intros t H; cbn [crop_loop] in H.
  - discriminate.
  - apply bind_inv in H as (mode & t1 & Hmode & H).
    assert (Hin : In mode sample_options).
    { unfold random_choice in Hmode. apply bind_inv in Hmode as (u & t0 & _ & Hm).
      destruct (nth_error _ _) eqn:E.
      - apply ret_inv in Hm as [-> _]. eapply nth_error_In; eauto.
      - apply lift_inv in Hm as [Hm _]. discriminate. }
    destruct mode as [[lo hi]|].
    + apply bind_inv in H as ([s1|] & t2 & H1 & H).
      * apply ret_inv in H as [-> _]. right.
        apply crop_trials_inv in H1 as [r Hr]. eauto.
      * eauto.
    + apply ret_inv in H as [-> _]. auto.
Qed.

Lemma RandomSampleCrop_inv fuel s t s' t' :
  RandomSampleCrop fuel s t = Return (s', t') ->
  s' = s \/
  exists r lo hi, In (Some (lo, hi)) sample_options /\
                  crop_at s r (min_iou_of lo) (max_iou_of hi) = Return (Some s').
Proof.
  unfold RandomSampleCrop. intro H.
  apply bind_inv in H as ([[h w] c] & t1 & _ & H).
  eapply crop_loop_inv; eauto.
Qed.

(** What a successful trial returns, piece by piece. *)
Lemma crop_at_success s r lo hi s' :
  crop_at s r lo hi = Return (Some s') ->
  let mask := map (center_mask r) (s_boxes s) in
  let nc := num_crowds (s_labels s) in
  no_regular_survivor s r = false /\
  crop_image r (s_image s) = Return (s_image s') /\
  (exists n h w v,
      s_masks s = Arr3 n h w v /\ length mask = n /\
      s_masks s' = Arr3 (count_true mask)
                        (slice_len h (rc1 r) (rc3 r)) (slice_len w (rc0 r) (rc2 r))
                        (map (fun m => map (slice_of w (rc0 r) (rc2 r))
                                           (slice_of h (rc1 r) (rc3 r) m))
                             (select mask v))) /\
  s_boxes s' = map (clip_to r) (select mask (s_boxes s)) /\
  length mask = length (labels (s_labels s)) /\
  labels (s_labels s') = select mask (labels (s_labels s)) /\
  num_crowds (s_labels s') =
    (if (0 <? nc)%Z then np_sum (select mask (crowd_mask (length mask) nc)) else nc).
Proof.
  unfold crop_at. intro H.
  apply obind_inv in H as (rej & _ & H).
  destruct rej; [discriminate|].
  apply obind_inv in H as (im & Him & H).
  destruct (no_regular_survivor s r); [discriminate|].
  apply obind_inv in H as (sm & Hsm & H).
  apply obind_inv in H as (ids & Hids & H).
  apply obind_inv in H as (cm & Hcm & H).
  injection H as <-. cbn [s_image s_masks s_boxes s_labels labels num_crowds].
  unfold select_masks in Hsm. destruct (s_masks s) as [|n h w v]; [discriminate|].
  destruct (Nat.eqb _ n) eqn:En; [|discriminate]. apply Nat.eqb_eq in En.
  injection Hsm as <-. cbn [crop_masks] in Hcm. injection Hcm as <-.
  unfold bool_index in Hids.
  destruct (Nat.eqb _ (length (labels (s_labels s)))) eqn:El; [|discriminate].
  apply Nat.eqb_eq in El. injection Hids as <-.
  repeat split; auto.
  exists n, h, w, v. auto.
Qed.

(** ** RandomSampleCrop: the surviving boxes *)

(** One axis of a surviving box: the centre lies strictly between the
    bounds [q0] and [q2] of the rectangle. *)
Lemma clip_axis (x1 x2 : fval) (q0 q2 : Q) :
  fle x1 x2 = true ->
  flt (Fin q0) (fdiv (fadd x1 x2) (Fin 2)) = true ->
  flt (fdiv (fadd x1 x2) (Fin 2)) (Fin q2) = true ->
  exists a b,
    fsub (fmaximum x1 (Fin q0)) (Fin q0) = Fin a /\
    fsub (fminimum x2 (Fin q2)) (Fin q0) = Fin b /\
    0 <= a /\ a <= b /\ b <= q2 - q0.
Proof.
  intros Hle H0 H2.
  destruct x1 as [p| | |], x2 as [q| | |]; cbn in Hle, H0, H2; try discriminate.
  rewrite fmaximum_fin, fminimum_fin. cbn [fsub fneg fadd].
  do 2 eexists. split; [reflexivity|]. split; [reflexivity|].
  qbool. unfold qmax, qmin.
  assert (Hc : (p + q) / 2 == (p + q) * (1 # 2)) by (field; lra).
  rewrite Hc in H0, H2.
  qcase; repeat split; lra.
Qed.

Lemma inject_Z_sub (a b : Z) : inject_Z (a - b) == inject_Z a - inject_Z b.
Proof.
  unfold Z.sub. rewrite inject_Z_plus, inject_Z_opp. reflexivity.
Qed.

Lemma center_mask_true (r : rect) (b : box) :
  center_mask r b = true ->
  (flt (of_int (rc0 r)) (center_x b) = true /\
   flt (center_x b) (of_int (rc2 r)) = true) /\
  (flt (of_int (rc1 r)) (center_y b) = true /\
   flt (center_y b) (of_int (rc3 r)) = true).
Proof.
  unfold center_mask. rewrite !andb_true_iff. tauto.
Qed.

Lemma survivor_clipped (r : rect) (b : box) :
  well_formed b -> center_mask r b = true ->
  within_crop r (clip_to r b) /\ well_formed (clip_to r b).
Proof.
  intros [Hx Hy] Hm. apply center_mask_true in Hm as [[Hx0 Hx2] [Hy0 Hy2]].
  destruct b as [x1 y1 x2 y2]. unfold center_x, center_y, of_int in *.
  cbn [bx1 bx2 by1 by2] in *.
  destruct (clip_axis x1 x2 _ _ Hx Hx0 Hx2) as (a1 & a2 & Ea1 & Ea2 & Ha0 & Ha & Ha2).
  destruct (clip_axis y1 y2 _ _ Hy Hy0 Hy2) as (b1 & b2 & Eb1 & Eb2 & Hb0 & Hb & Hb2).
  unfold within_crop, well_formed, between, clip_to, of_int.
  cbn [bx1 bx2 by1 by2 rc0 rc1 rc2 rc3].
  rewrite Ea1, Ea2, Eb1, Eb2. cbn [fle].
  rewrite !Qle_bool_iff, !inject_Z_sub. repeat split; lra.
Qed.

Lemma select_In {A : Type} (mask : list bool) (l : list A) (x : A) :
  In x (select mask l) -> In x l.
Proof.
  revert l. induction mask as [|m mask IH]; intros [|y l]; cbn; try tauto.
  destruct m; cbn; intros H; [destruct H|]; auto.
Qed.

Lemma select_map_true {A : Type} (p : A -> bool) (l : list A) (x : A) :
  In x (select (map p l) l) -> p x = true.
Proof.
  induction l as [|y l IH]; cbn; [tauto|].
  destruct (p y) eqn:E; cbn; intros H; [destruct H; subst|]; auto.
Qed.

Lemma select_length {A : Type} (mask : list bool) (a : list A) :
  length mask = length a -> length (select mask a) = count_true mask.
Proof.
  unfold count_true.
  revert a. induction mask as [|m mask IH]; intros [|x a]; cbn;
    try discriminate; auto.
  intro H. destruct m; cbn; auto.
Qed.

Lemma cropped_boxes (r : rect) (boxes : list box) :
  Forall well_formed boxes ->
  let kept := map (clip_to r) (select (map (center_mask r) boxes) boxes) in
  Forall (within_crop r) kept /\ Forall well_formed kept.
Proof.
  intros Hwf kept. subst kept. rewrite !Forall_map.
  rewrite !Forall_forall in *.
  split; intros b Hb; apply survivor_clipped;
    eauto using select_In, select_map_true.
Qed.

(** C1, on well-formed boxes: when [RandomSampleCrop] returns, the
    boxes, the masks and the class ids have one length, and unless the
    sample came back untouched there is a rectangle, the one the crop was
    cut at, such that every returned box lies within
    [[0, rect_x2 - rect_x1] x [0, rect_y2 - rect_y1]]. *)
Theorem RandomSampleCrop_boxes_within_crop
        (fuel : nat) (s s' : sample) (t t' : tape) :
  same_length s ->
  Forall well_formed (s_boxes s) ->
  RandomSampleCrop fuel s t = Return (s', t') ->
  same_length s' /\
  (s' = s \/
   exists r lo hi,
     In (Some (lo, hi)) sample_options /\
     crop_at s r (min_iou_of lo) (max_iou_of hi) = Return (Some s') /\
     Forall (within_crop r) (s_boxes s')).
Proof.
  intros Hlen Hwf Hrun.
  apply RandomSampleCrop_inv in Hrun as [->|(r & lo & hi & Hin & Hat)].
  { auto. }
  pose proof (crop_at_success _ _ _ _ _ Hat) as
    (_ & _ & (n & h & w & v & Hm & Hn & Hm') & Hb & Hl & Hl' & _).
  split.
  - unfold same_length. rewrite Hm', Hb, Hl'. cbn [shape0].
    rewrite length_map, !select_length; auto using length_map.
  - right. exists r, lo, hi. repeat split; auto.
    rewrite Hb. apply cropped_boxes. assumption.
Qed.

Lemma RandomSampleCrop_boxes_within_crop_witness :
  same_length demo_cropped /\
  (demo_cropped = demo_sample \/
   exists r lo hi,
     In (Some (lo, hi)) sample_options /\
     crop_at demo_sample r (min_iou_of lo) (max_iou_of hi) = Return (Some demo_cropped) /\
     Forall (within_crop r) (s_boxes demo_cropped)).
Proof.
  apply (RandomSampleCrop_boxes_within_crop 1 demo_sample demo_cropped demo_tape []).
  - split; reflexivity.
  - repeat constructor.
  - vm_compute. reflexivity.
Defined.

(** C1 as stated, on every index-aligned input: a box stored with
    [x1 > x2] whose centre falls in the rectangle survives the crop and
    comes back with a negative right edge, outside every crop frame. *)
Lemma RandomSampleCrop_inverted_box_leaves_crop :
  same_length demo_inverted /\
  exists s',
    RandomSampleCrop 1 demo_inverted demo_tape = Return (s', []) /\
    crop_at demo_inverted (Rect 3 3 7 7) NInf PInf = Return (Some s') /\
    s_boxes s' = [Box (Fin (9 + - 3)) (Fin (4 + - 3)) (Fin (1 + - 3)) (Fin (6 + - 3))] /\
    forall r, ~ Forall (within_crop r) (s_boxes s').
Proof.
  split; [split; reflexivity|].
  eexists. split; [vm_compute; reflexivity|].
  split; [vm_compute; reflexivity|].
  split; [reflexivity|].
  intros r H. inversion H as [|b l Hb _]; subst.
  destruct Hb as (_ & [H0 _] & _). cbn in H0. discriminate.
Qed.

(** ** Order of the corners under the box operations *)

Lemma fle_fmul (a b : fval) (w : Q) :
  0 < w -> fle a b = true -> fle (fmul a (Fin w)) (fmul b (Fin w)) = true.
Proof.
  intros Hw.
  assert (E0 : Qeq_bool w 0 = false) by (apply Qeq_bool_false; lra).
  assert (E1 : Qlt_bool w 0 = false) by (apply Qlt_bool_false; lra).
  destruct a as [p| | |], b as [q| | |]; cbn; unfold signed_inf;
    rewrite ?E0, ?E1; cbn; try discriminate; auto.
  rewrite !Qle_bool_iff. intro H. nra.
Qed.

Lemma fle_fdiv (a b : fval) (w : Q) :
  0 < w -> fle a b = true -> fle (fdiv a (Fin w)) (fdiv b (Fin w)) = true.
Proof.
  intros Hw.
  assert (E0 : Qeq_bool w 0 = false) by (apply Qeq_bool_false; lra).
  assert (E1 : Qlt_bool w 0 = false) by (apply Qlt_bool_false; lra).
  destruct a as [p| | |], b as [q| | |]; cbn; unfold signed_inf;
    rewrite ?E0, ?E1; cbn; try discriminate; auto.
  rewrite !Qle_bool_iff. intro H. unfold Qdiv.
  apply Qmult_le_compat_r; [assumption|].
  apply Qlt_le_weak, Qinv_lt_0_compat. assumption.
Qed.

Lemma fle_fadd (a b : fval) (d : Q) :
  fle a b = true -> fle (fadd a (Fin d)) (fadd b (Fin d)) = true.
Proof.
  destruct a as [p| | |], b as [q| | |]; cbn; try discriminate; auto.
  rewrite !Qle_bool_iff. intro H. lra.
Qed.

Lemma fle_fsub_from (a b : fval) (w : Q) :
  fle a b = true -> fle (fsub (Fin w) b) (fsub (Fin w) a) = true.
Proof.
  destruct a as [p| | |], b as [q| | |]; cbn; try discriminate; auto.
  rewrite !Qle_bool_iff. intro H. lra.
Qed.

Lemma well_formed_to_absolute (height width : nat) (b : box) :
  (0 < height)%nat -> (0 < width)%nat -> well_formed b ->
  well_formed (map_y (fun y => fmul y (of_nat height))
                 (map_x (fun x => fmul x (of_nat width)) b)).
Proof.
  intros Hh Hw [Hx Hy]. apply of_nat_pos in Hh, Hw.
  split; cbn; apply fle_fmul; assumption.
Qed.

Lemma well_formed_to_percent (height width : nat) (b : box) :
  (0 < height)%nat -> (0 < width)%nat -> well_formed b ->
  well_formed (map_y (fun y => fdiv y (of_nat height))
                 (map_x (fun x => fdiv x (of_nat width)) b)).
Proof.
  intros Hh Hw [Hx Hy]. apply of_nat_pos in Hh, Hw.
  split; cbn; apply fle_fdiv; assumption.
Qed.

Lemma well_formed_translate (dx dy : Z) (b : box) :
  well_formed b -> well_formed (translate dx dy b).
Proof.
  intros [Hx Hy]. split; cbn; apply fle_fadd; assumption.
Qed.

Lemma well_formed_reflect (width : nat) (b : box) :
  well_formed b -> well_formed (reflect width b).
Proof.
  intros [Hx Hy]. split; cbn; [apply fle_fsub_from|]; assumption.
Qed.

Lemma well_formed_scale (sx sy : Q) (b : box) :
  0 < sx -> 0 < sy -> well_formed b -> well_formed (scale sx sy b).
Proof.
  intros Hsx Hsy [Hx Hy]. split; cbn; apply fle_fmul; assumption.
Qed.

Lemma Forall_map_keeps (f : box -> box) (l : list box) :
  (forall b, well_formed b -> well_formed (f b)) ->
  Forall well_formed l -> Forall well_formed (map f l).
Proof.
  intros Hf H. rewrite Forall_map. eapply Forall_impl; eauto.
Qed.

(** ** Reading the runs of Expand, RandomMirror, Resize and Pad *)

Lemma assign3_shape target s0 r0 s1 r1 s2 r2 value a :
  assign3 target s0 r0 s1 r1 s2 r2 value = Return a -> shape a = shape target.
Proof.
  unfold assign3. destruct target as [|d0 d1 d2 tv]; [discriminate|].
  destruct value as [v1 v2 vv|v0 v1 v2 vv];
    destruct (_ && _); try discriminate; intro H; injection H as <-; reflexivity.
Qed.

Lemma np_zeros3_shape d0 d1 d2 a :
  np_zeros3 d0 d1 d2 = Return a ->
  shape a = [Z.to_nat d0; Z.to_nat d1; Z.to_nat d2].
Proof.
  unfold np_zeros3. destruct (_ || _); [discriminate|].
  intro H. injection H as <-. reflexivity.
Qed.

Lemma fill_mean_shape a b : fill_mean a = Return b -> shape b = shape a.
Proof.
  destruct a as [|d0 d1 d2 v]; [discriminate|]. cbn [fill_mean].
  apply assign3_shape.
Qed.

Lemma unpack_shape3_inv a h w c :
  unpack_shape3 a = Return (h, w, c) -> shape a = [h; w; c].
Proof.
  destruct a; cbn; [discriminate|]. intro H. injection H as <- <- <-. reflexivity.
Qed.

Lemma expand_at_success s height width depth ratio left top s' :
  expand_at s height width depth ratio left top = Return s' ->
  exists H W,
    shape (s_image s') = [H; W; depth] /\
    shape (s_masks s') = [shape0 (s_masks s); H; W] /\
    s_boxes s' = map (translate (py_int left) (py_int top)) (s_boxes s) /\
    s_labels s' = s_labels s.
Proof.
  unfold expand_at. intro H.
  apply obind_inv in H as (z & Hz & H).
  apply obind_inv in H as (filled & Hf & H).
  apply obind_inv in H as (im & Him & H).
  apply obind_inv in H as (zm & Hzm & H).
  apply obind_inv in H as (ms & Hms & H).
  injection H as <-. cbn [s_image s_masks s_boxes s_labels].
  apply assign3_shape in Him, Hms. apply fill_mean_shape in Hf.
  apply np_zeros3_shape in Hz, Hzm.
  do 2 eexists. rewrite Him, Hf, Hz, Hms, Hzm, !Nat2Z.id. auto.
Qed.

Lemma Expand_inv s t s' t' :
  Expand s t = Return (s', t') ->
  s' = s \/
  exists height width depth ratio left top,
    expand_at s height width depth ratio left top = Return s'.
Proof.
  unfold Expand. intro H.
  apply bind_inv in H as (coin & t0 & _ & H).
  destruct coin.
  - apply bind_inv in H as ([[h w] d] & t1 & _ & H).
    apply bind_inv in H as (ratio & t2 & _ & H).
    apply bind_inv in H as (left & t3 & _ & H).
    apply bind_inv in H as (top & t4 & _ & H).
    apply lift_inv in H as [H _]. right. eauto 10.
  - apply ret_inv in H as [-> _]. auto.
Qed.

Lemma RandomMirror_inv s t s' t' :
  RandomMirror s t = Return (s', t') ->
  s' = s \/
  exists h w c v n mh mw mv,
    s_image s = Arr3 h w c v /\ s_masks s = Arr3 n mh mw mv /\
    s' = Sample (Arr3 h w c (map (@rev (list Q)) v))
                (Arr3 n mh mw (map (map (@rev Q)) mv))
                (map (reflect w) (s_boxes s)) (s_labels s).
Proof.
  unfold RandomMirror. intro H.
  apply bind_inv in H as ([[h w] c] & t0 & Hs & H).
  apply lift_inv in Hs as [Hs _].
  destruct (s_image s) as [|h' w' c' v] eqn:Him; [discriminate|].
  injection Hs as -> -> ->.
  apply bind_inv in H as (coin & t1 & _ & H).
  destruct coin.
  - apply lift_inv in H as [H _]. unfold mirror in H.
    apply obind_inv in H as (ms & Hms & H).
    destruct (s_masks s) as [|n mh mw mv] eqn:Hm; [discriminate|].
    injection Hms as <-. injection H as <-. rewrite Him.
    right. exists h, w, c, v, n, mh, mw, mv. auto.
  - apply ret_inv in H as [-> _]. auto.
Qed.

Lemma py_truediv_pos (a b : Z) (q : Q) :
  (0 < a)%Z -> (0 <= b)%Z -> py_truediv a b = Return q -> 0 < q.
Proof.
  unfold py_truediv. intros Ha Hb. destruct (Z.eqb b 0) eqn:E; [discriminate|].
  apply Z.eqb_neq in E. intro H. injection H as <-.
  assert (Ha' : 0 < inject_Z a) by (change 0 with (inject_Z 0); rewrite <- Zlt_Qlt; lia).
  assert (Hb' : 0 < inject_Z b) by (change 0 with (inject_Z 0); rewrite <- Zlt_Qlt; lia).
  unfold Qdiv. apply Qmult_lt_0_compat; [assumption|].
  apply Qinv_lt_0_compat. assumption.
Qed.

Section ResizeRuns.

Variable cv2_resize : ndarray -> Z -> Z -> outcome ndarray.

Lemma Resize_gt_inv img_size s t s' t' :
  Resize cv2_resize img_size true s t = Return (s', t') ->
  exists img_h img_w c resized sx sy,
    unpack_shape3 (s_image s) = Return (img_h, img_w, c) /\
    cv2_resize (s_image s) img_size img_size = Return (s_image s') /\
    (exists transposed,
        cv2_resize transposed img_size img_size = Return resized) /\
    tl (shape (s_masks s')) = firstn 2 (shape resized) /\
    py_truediv img_size (Z.of_nat img_w) = Return sx /\
    py_truediv img_size (Z.of_nat img_h) = Return sy /\
    s_boxes s' = map (scale sx sy) (s_boxes s) /\
    s_labels s' = s_labels s.
Proof.
  unfold Resize. intro H. apply lift_inv in H as [H _].
  apply obind_inv in H as ([[img_h img_w] c] & Hs & H).
  apply obind_inv in H as (image & Him & H).
  apply obind_inv in H as (transposed & Htr & H).
  apply obind_inv in H as (resized & Hre & H).
  apply obind_inv in H as (masks & Hms & H).
  apply obind_inv in H as (sx & Hsx & H).
  apply obind_inv in H as (sy & Hsy & H).
  injection H as <-. cbn [s_image s_masks s_boxes s_labels].
  exists img_h, img_w, c, resized, sx, sy. repeat split; eauto.
  destruct resized as [d0 d1 v|d0 d1 d2 v].
  - injection Hms as <-. reflexivity.
  - cbn in Hms. injection Hms as <-. reflexivity.
Qed.

Lemma Resize_no_gt_inv img_size s t s' t' :
  Resize cv2_resize img_size false s t = Return (s', t') ->
  s_masks s' = s_masks s /\ s_boxes s' = s_boxes s /\ s_labels s' = s_labels s.
Proof.
  unfold Resize. intro H. apply lift_inv in H as [H _].
  apply obind_inv in H as ([[img_h img_w] c] & Hs & H).
  apply obind_inv in H as (image & Him & H).
  injection H as <-. auto.
Qed.

End ResizeRuns.

Lemma Pad_inv width height pad_gt s t s' t' :
  Pad width height pad_gt s t = Return (s', t') ->
  exists depth,
    shape (s_image s') = [Z.to_nat height; Z.to_nat width; depth] /\
    (if pad_gt
     then shape (s_masks s') = [shape0 (s_masks s); Z.to_nat height; Z.to_nat width]
     else s_masks s' = s_masks s) /\
    s_boxes s' = s_boxes s /\ s_labels s' = s_labels s.
Proof.
  unfold Pad. intro H. apply lift_inv in H as [H _].
  apply obind_inv in H as ([[im_h im_w] depth] & Hs & H).
  apply obind_inv in H as (z & Hz & H).
  apply obind_inv in H as (filled & Hf & H).
  apply obind_inv in H as (im & Him & H).
  apply obind_inv in H as (ms & Hms & H).
  injection H as <-. cbn [s_image s_masks s_boxes s_labels].
  apply assign3_shape in Him. apply fill_mean_shape in Hf.
  apply np_zeros3_shape in Hz.
  exists depth. rewrite Him, Hf, Hz, Nat2Z.id. repeat split; auto.
  destruct pad_gt.
  - apply obind_inv in Hms as (zm & Hzm & Hms).
    apply assign3_shape in Hms. apply np_zeros3_shape in Hzm.
    rewrite Hms, Hzm, Nat2Z.id. reflexivity.
  - injection Hms as <-. reflexivity.
Qed.

(** ** Well-formed boxes *)

(** C10: on an image of positive height and width whose boxes all have
    [x1 <= x2] and [y1 <= y2], the boxes returned by ToAbsoluteCoords,
    ToPercentCoords, Expand, RandomMirror, Resize with ground truth (for a
    positive target size) and RandomSampleCrop all have [x1 <= x2] and
    [y1 <= y2]. *)
Theorem transforms_keep_boxes_well_formed
        (cv2_resize : ndarray -> Z -> Z -> outcome ndarray)
        (s : sample) (h w c : nat) v :
  s_image s = Arr3 h w c v -> (0 < h)%nat -> (0 < w)%nat ->
  Forall well_formed (s_boxes s) ->
  (forall t s' t', ToAbsoluteCoords s t = Return (s', t') ->
                   Forall well_formed (s_boxes s')) /\
  (forall t s' t', ToPercentCoords s t = Return (s', t') ->
                   Forall well_formed (s_boxes s')) /\
  (forall t s' t', Expand s t = Return (s', t') ->
                   Forall well_formed (s_boxes s')) /\
  (forall t s' t', RandomMirror s t = Return (s', t') ->
                   Forall well_formed (s_boxes s')) /\
  (forall img_size t s' t',
      (0 < img_size)%Z ->
      Resize cv2_resize img_size true s t = Return (s', t') ->
      Forall well_formed (s_boxes s')) /\
  (forall fuel t s' t', RandomSampleCrop fuel s t = Return (s', t') ->
                        Forall well_formed (s_boxes s')).
Proof.
  intros Him Hh Hw Hwf. repeat split.
  - intros t s' t' H. unfold ToAbsoluteCoords in H. rewrite Him in H.
    cbn in H. injection H as <- _. cbn [s_boxes].
    apply Forall_map_keeps; auto using well_formed_to_absolute.
  - intros t s' t' H. unfold ToPercentCoords in H. rewrite Him in H.
    cbn in H. injection H as <- _. cbn [s_boxes].
    apply Forall_map_keeps; auto using well_formed_to_percent.
  - intros t s' t' H.
    apply Expand_inv in H as [->|(eh & ew & ed & ratio & left & top & H)]; auto.
    apply expand_at_success in H as (_ & _ & _ & _ & -> & _).
    apply Forall_map_keeps; auto using well_formed_translate.
  - intros t s' t' H.
    apply RandomMirror_inv in H
      as [->|(h' & w' & c' & v' & n & mh & mw & mv & _ & _ & ->)]; auto.
    cbn [s_boxes]. apply Forall_map_keeps; auto using well_formed_reflect.
  - intros img_size t s' t' Hs H.
    apply Resize_gt_inv in H
      as (ih & iw & ic & resized & sx & sy & _ & _ & _ & _ & Hsx & Hsy & -> & _).
    apply py_truediv_pos in Hsx, Hsy; try lia.
    apply Forall_map_keeps; auto using well_formed_scale.
  - intros fuel t s' t' H.
    apply RandomSampleCrop_inv in H as [->|(r & lo & hi & _ & Hat)]; auto.
    apply crop_at_success in Hat as (_ & _ & _ & -> & _).
    apply cropped_boxes. assumption.
Qed.

Lemma nearest_resize_to_dsize : resizes_to_dsize nearest_resize.
Proof.
  intros src width height dst. unfold nearest_resize.
  destruct (_ || _)%bool; [discriminate|].
  destruct src as [d0 d1 v|d0 d1 c v].
  - destruct (_ || _)%bool; [discriminate|]. intro H. injection H as <-. reflexivity.
  - destruct (_ || _)%bool; [discriminate|].
    destruct (Nat.eqb c 1); intro H; injection H as <-; reflexivity.
Qed.

Lemma transforms_keep_boxes_well_formed_witness :
  Forall well_formed (s_boxes demo_cropped) /\
  (forall t s' t', RandomMirror demo_sample t = Return (s', t') ->
                   Forall well_formed (s_boxes s')).
Proof.
  destruct (transforms_keep_boxes_well_formed nearest_resize demo_sample 10 10 3
              (tab 10 (fun i => tab 10 (fun j =>
                 [inject_Z (Z.of_nat i); inject_Z (Z.of_nat j); 0]))))
    as (_ & _ & _ & Hmirror & _ & Hcrop).
  - reflexivity.
  - lia.
  - lia.
  - repeat constructor.
  - split; [|exact Hmirror].
    apply (Hcrop 1%nat demo_tape demo_cropped []). vm_compute. reflexivity.
Defined.

(** ** The crowd count *)

Lemma crowd_mask_entries (n : nat) (nc : Z) :
  Forall (fun c => 0 <= c <= 1)%Z (crowd_mask n nc).
Proof.
  unfold crowd_mask, tab. rewrite Forall_map. apply Forall_forall.
  intros i _. destruct (_ && _); lia.
Qed.

Lemma np_sum_cons (x : Z) (l : list Z) : np_sum (x :: l) = (x + np_sum l)%Z.
Proof. reflexivity. Qed.

Lemma indicator_sum (k : Z) (len a : nat) :
  (np_sum (map (fun i => if (k <=? Z.of_nat i)%Z then 1 else 0)%Z (seq a len))
   <= Z.of_nat len /\
   np_sum (map (fun i => if (k <=? Z.of_nat i)%Z then 1 else 0)%Z (seq a len))
   <= Z.max 0 (Z.of_nat (a + len) - k))%Z.
Proof.
  revert a. induction len as [|len IH]; intro a.
  - cbn. lia.
  - cbn [seq map]. rewrite np_sum_cons. specialize (IH (S a)).
    destruct (Z.leb_spec k (Z.of_nat a)); lia.
Qed.

Lemma crowd_mask_sum (n : nat) (nc : Z) :
  (0 < nc)%Z -> (np_sum (crowd_mask n nc) <= nc)%Z.
Proof.
  intro H. unfold crowd_mask, tab.
  apply Z.ltb_lt in H. rewrite (map_ext _
    (fun i => if (Z.of_nat n - nc <=? Z.of_nat i)%Z then 1 else 0)%Z)
    by (intro; rewrite H; reflexivity).
  apply Z.ltb_lt in H.
  pose proof (indicator_sum (Z.of_nat n - nc) n 0) as [_ Hs]. lia.
Qed.

Lemma np_sum_nonneg (l : list Z) :
  Forall (fun c => 0 <= c <= 1)%Z l -> (0 <= np_sum l)%Z.
Proof.
  induction 1 as [|c l Hc _ IH]; [cbn; lia|]. rewrite np_sum_cons. lia.
Qed.

Lemma select_sum (mask : list bool) (l : list Z) :
  Forall (fun c => 0 <= c <= 1)%Z l ->
  (np_sum (select mask l) <= np_sum l /\
   np_sum (select mask l) <= Z.of_nat (length (select mask l)))%Z.
Proof.
  intro H. revert mask. induction H as [|c l Hc Hl IH]; intros [|m mask];
    cbn [select]; try (cbn; lia).
  - apply np_sum_nonneg in Hl. rewrite np_sum_cons. cbn. lia.
  - specialize (IH mask).
    destruct m; cbn [length]; rewrite ?np_sum_cons; lia.
Qed.

Lemma crowd_mask_length (n : nat) (nc : Z) : length (crowd_mask n nc) = n.
Proof. unfold crowd_mask, tab. rewrite length_map, length_seq. reflexivity. Qed.

Lemma crop_at_num_crowds s r lo hi s' :
  crop_at s r lo hi = Return (Some s') ->
  (num_crowds (s_labels s') <= num_crowds (s_labels s) /\
   (0 <= num_crowds (s_labels s) ->
    num_crowds (s_labels s') <= Z.of_nat (length (s_boxes s'))))%Z.
Proof.
  intro H. apply crop_at_success in H as (_ & _ & _ & Hb & _ & _ & Hn).
  cbn zeta in Hn. rewrite Hn, Hb, (length_map (clip_to r)).
  set (mask := map (center_mask r) (s_boxes s)).
  set (nc := num_crowds (s_labels s)).
  destruct (Z.ltb_spec 0 nc) as [Hpos|Hneg].
  - pose proof (select_sum mask _ (crowd_mask_entries (length mask) nc)) as [H1 H2].
    pose proof (crowd_mask_sum (length mask) nc Hpos) as H3.
    rewrite select_length in H2 by (rewrite crowd_mask_length; reflexivity).
    rewrite select_length by (unfold mask; apply length_map).
    lia.
  - lia.
Qed.

(** C4: when the label bundle follows the crowd convention,
    [num_crowds] after RandomSampleCrop is at most what it was, and after
    RandomSampleCrop, Expand, RandomMirror and Resize it is at most the
    number of boxes returned. *)
Theorem num_crowds_bounded
        (cv2_resize : ndarray -> Z -> Z -> outcome ndarray) (s : sample) :
  crowd_convention s ->
  (forall fuel t s' t',
      RandomSampleCrop fuel s t = Return (s', t') ->
      (num_crowds (s_labels s') <= num_crowds (s_labels s) /\
       num_crowds (s_labels s') <= Z.of_nat (length (s_boxes s')))%Z) /\
  (forall t s' t',
      Expand s t = Return (s', t') ->
      (num_crowds (s_labels s') <= Z.of_nat (length (s_boxes s')))%Z) /\
  (forall t s' t',
      RandomMirror s t = Return (s', t') ->
      (num_crowds (s_labels s') <= Z.of_nat (length (s_boxes s')))%Z) /\
  (forall img_size resize_gt t s' t',
      Resize cv2_resize img_size resize_gt s t = Return (s', t') ->
      (num_crowds (s_labels s') <= Z.of_nat (length (s_boxes s')))%Z).
Proof.
  intros [H0 Hn]. repeat split.
  - apply RandomSampleCrop_inv in H as [->|(r & lo & hi & _ & Hat)]; [lia|].
    apply crop_at_num_crowds in Hat. tauto.
  - apply RandomSampleCrop_inv in H as [->|(r & lo & hi & _ & Hat)]; [lia|].
    apply crop_at_num_crowds in Hat. tauto.
  - intros t s' t' H.
    apply Expand_inv in H as [->|(eh & ew & ed & ratio & left & top & H)]; auto.
    apply expand_at_success in H as (_ & _ & _ & _ & -> & ->).
    rewrite length_map. assumption.
  - intros t s' t' H.
    apply RandomMirror_inv in H
      as [->|(h' & w' & c' & v' & n & mh & mw & mv & _ & _ & ->)]; auto.
    cbn [s_boxes s_labels]. rewrite length_map. assumption.
  - intros img_size [|] t s' t' H.
    + apply Resize_gt_inv in H
        as (ih & iw & ic & resized & sx & sy & _ & _ & _ & _ & _ & _ & -> & ->).
      rewrite length_map. assumption.
    + apply Resize_no_gt_inv in H as (_ & -> & ->). assumption.
Qed.

Lemma num_crowds_bounded_witness :
  (num_crowds (s_labels demo_cropped) <= num_crowds (s_labels demo_sample) /\
   num_crowds (s_labels demo_cropped) <= Z.of_nat (length (s_boxes demo_cropped)))%Z /\
  (forall t s' t',
      RandomMirror demo_sample t = Return (s', t') ->
      (num_crowds (s_labels s') <= Z.of_nat (length (s_boxes s')))%Z).
Proof.
  destruct (num_crowds_bounded nearest_resize demo_sample)
    as (Hcrop & _ & Hmirror & _).
  - split; vm_compute; discriminate.
  - split; [|exact Hmirror].
    apply (Hcrop 1%nat demo_tape demo_cropped []). vm_compute. reflexivity.
Defined.

(** ** Spatial alignment of masks and image *)

Lemma crop_at_aligned s r lo hi s' :
  aligned s -> crop_at s r lo hi = Return (Some s') -> aligned s'.
Proof.
  unfold aligned. intros Ha H.
  apply crop_at_success in H as (_ & Him & (n & mh & mw & mv & Hm & _ & Hm') & _).
  rewrite Hm in Ha. rewrite Hm'.
  destruct (s_image s) as [|h w c v]; [discriminate|].
  cbn in Him. injection Him as <-. cbn in Ha |- *.
  injection Ha as -> ->. reflexivity.
Qed.

(** C3, with ground-truth processing enabled: Expand, RandomMirror,
    RandomSampleCrop, Resize with ground truth and Pad with ground truth
    return masks whose spatial extents are the height and width of the
    returned image, whenever they are given such a sample. *)
Theorem geometric_transforms_keep_alignment
        (cv2_resize : ndarray -> Z -> Z -> outcome ndarray) (s : sample) :
  resizes_to_dsize cv2_resize ->
  aligned s ->
  (forall t s' t', Expand s t = Return (s', t') -> aligned s') /\
  (forall t s' t', RandomMirror s t = Return (s', t') -> aligned s') /\
  (forall fuel t s' t', RandomSampleCrop fuel s t = Return (s', t') -> aligned s') /\
  (forall img_size t s' t',
      Resize cv2_resize img_size true s t = Return (s', t') -> aligned s') /\
  (forall width height t s' t',
      Pad width height true s t = Return (s', t') -> aligned s').
Proof.
  intros Hcv Ha. repeat split.
  - intros t s' t' H.
    apply Expand_inv in H as [->|(eh & ew & ed & ratio & left & top & H)]; auto.
    apply expand_at_success in H as (H' & W' & Him & Hm & _).
    unfold aligned. rewrite Him, Hm. reflexivity.
  - intros t s' t' H.
    apply RandomMirror_inv in H
      as [->|(h' & w' & c' & v' & n & mh & mw & mv & Him & Hm & ->)]; auto.
    unfold aligned in *. rewrite Him, Hm in Ha. exact Ha.
  - intros fuel t s' t' H.
    apply RandomSampleCrop_inv in H as [->|(r & lo & hi & _ & Hat)]; auto.
    eapply crop_at_aligned; eauto.
  - intros img_size t s' t' H.
    apply Resize_gt_inv in H
      as (ih & iw & ic & resized & sx & sy & _ & Him & [tr Hre] & Hm & _).
    apply Hcv in Him, Hre. unfold aligned. congruence.
  - intros width height t s' t' H.
    apply Pad_inv in H as (depth & Him & Hm & _).
    unfold aligned. rewrite Him, Hm. reflexivity.
Qed.

Lemma geometric_transforms_keep_alignment_witness :
  aligned demo_cropped /\
  (forall width height t s' t',
      Pad width height true demo_sample t = Return (s', t') -> aligned s').
Proof.
  destruct (geometric_transforms_keep_alignment nearest_resize demo_sample)
    as (_ & _ & Hcrop & _ & Hpad).
  - exact nearest_resize_to_dsize.
  - reflexivity.
  - split; [|exact Hpad].
    apply (Hcrop 1%nat demo_tape demo_cropped []). vm_compute. reflexivity.
Defined.

(** C3 as stated, with ground-truth processing disabled: Pad and Resize
    change the extents of the image and leave the masks as they were. *)
Lemma disabled_ground_truth_breaks_alignment :
  aligned demo_sample /\
  (exists s', Pad 12 12 false demo_sample [] = Return (s', []) /\
              shape (s_image s') = [12; 12; 3]%nat /\
              shape (s_masks s') = [2; 10; 10]%nat /\
              ~ aligned s') /\
  (exists s', Resize nearest_resize 4 false demo_sample [] = Return (s', []) /\
              shape (s_image s') = [4; 4; 3]%nat /\
              shape (s_masks s') = [2; 10; 10]%nat /\
              ~ aligned s').
Proof.
  split; [reflexivity|].
  split; eexists; (split; [vm_compute; reflexivity|]);
    (split; [reflexivity|]); (split; [reflexivity|]);
    unfold aligned; cbn; discriminate.
Qed.

(** ** Runs on the concrete sample *)

Example ValAug_demo_returns :
  exists s', ValAug nearest_resize 4 demo_sample [] = Return (s', []) /\
             shape (s_image s') = [4; 4; 3]%nat /\
             s_boxes s' = s_boxes demo_sample.
Proof.
  eexists. split; [vm_compute; reflexivity|]. split; reflexivity.
Qed.

Example Expand_demo_returns :
  exists s', Expand demo_sample [3 # 4; 1 # 3; 1 # 2; 1 # 2] = Return (s', []) /\
             shape (s_image s') = [20; 20; 3]%nat /\
             shape (s_masks s') = [2; 20; 20]%nat.
Proof.
  eexists. split; [vm_compute; reflexivity|]. split; reflexivity.
Qed.

Example Resize_demo_returns :
  exists s', Resize nearest_resize 5 true demo_sample [] = Return (s', []) /\
             shape (s_image s') = [5; 5; 3]%nat /\
             shape (s_masks s') = [2; 5; 5]%nat.
Proof.
  eexists. split; [vm_compute; reflexivity|]. split; reflexivity.
Qed.

Example crop_demo_num_crowds :
  num_crowds (s_labels demo_cropped) = 1%Z /\ length (s_boxes demo_cropped) = 2%nat.
Proof. split; reflexivity. Qed.

(** ** The recorded shapes are the shapes of the contents *)

Lemma norm_index_le (n : nat) (i : Z) : (norm_index n i <= n)%nat.
Proof. unfold norm_index. destruct (Z.ltb_spec i 0); lia. Qed.

Lemma slice_of_length {A : Type} (n : nat) (a b : Z) (l : list A) :
  length l = n -> length (slice_of n a b l) = slice_len n a b.
Proof.
  intro H. unfold slice_of, slice_len, slice_start.
  rewrite length_firstn, length_skipn, H.
  pose proof (norm_index_le n a). pose proof (norm_index_le n b). lia.
Qed.

Lemma slice_of_In {A : Type} (n : nat) (a b : Z) (l : list A) (x : A) :
  In x (slice_of n a b l) -> In x l.
Proof.
  unfold slice_of. intro H.
  set (k := slice_start n a b) in *. set (m := slice_len n a b) in *.
  rewrite <- (firstn_skipn k l). apply in_or_app. right.
  rewrite <- (firstn_skipn m (skipn k l)). apply in_or_app. left. exact H.
Qed.

Lemma flip_axis1_wf (a : ndarray) : wf_array a -> wf_array (flip_axis1 a).
Proof.
  destruct a as [d0 d1 v|d0 d1 d2 v]; cbn; intros [Hl Hr];
    rewrite length_map, Forall_map; (split; [assumption|]);
    (eapply Forall_impl; [|exact Hr]); cbn; intros r.
  - rewrite length_rev. auto.
  - intros [H1 H2]. rewrite length_rev. split; [assumption|].
    apply Forall_rev. assumption.
Qed.

Lemma crop_at_wf s r lo hi s' :
  wf_array (s_image s) -> wf_array (s_masks s) ->
  crop_at s r lo hi = Return (Some s') ->
  wf_array (s_image s') /\ wf_array (s_masks s').
Proof.
  intros Hi Hm H.
  apply crop_at_success in H as (_ & Him & (n & mh & mw & mv & Em & Hn & Em') & _).
  split.
  - destruct (s_image s) as [|h w c v]; [discriminate|].
    cbn in Him. injection Him as <-. destruct Hi as [Hl Hr]. cbn.
    rewrite length_map. split; [apply slice_of_length; assumption|].
    rewrite Forall_map. rewrite Forall_forall in *. intros row Hrow.
    apply slice_of_In in Hrow. destruct (Hr row Hrow) as [H1 H2].
    split; [apply slice_of_length; assumption|].
    rewrite Forall_forall in *. intros p Hp. apply slice_of_In in Hp. auto.
  - rewrite Em in Hm. rewrite Em'. destruct Hm as [Hl Hr]. cbn.
    rewrite length_map. split; [apply select_length; lia|].
    rewrite Forall_map. rewrite Forall_forall in *. intros m Hin.
    apply select_In in Hin. destruct (Hr m Hin) as [H1 H2].
    rewrite length_map. split; [apply slice_of_length; assumption|].
    rewrite Forall_map. rewrite Forall_forall in *. intros row Hrow.
    apply slice_of_In in Hrow. apply slice_of_length. auto.
Qed.

Example demo_sample_wf :
  wf_array (s_image demo_sample) /\ wf_array (s_masks demo_sample).
Proof. split; cbn; split; repeat constructor. Qed.

(** * Further properties of the module *)

(** ** The overlap ratio *)

Lemma qmin_comm a b : qmin a b == qmin b a.
Proof. unfold qmin. qcase; lra. Qed.

Lemma qmax_comm a b : qmax a b == qmax b a.
Proof. unfold qmax. qcase; lra. Qed.

Lemma qclip_proper a b : a == b -> qclip a == qclip b.
Proof. intro H. unfold qclip, qmax. qcase; lra. Qed.

Lemma qinter_comm a1 b1 a2 b2 c1 d1 c2 d2 :
  qinter a1 b1 a2 b2 c1 d1 c2 d2 == qinter c1 d1 c2 d2 a1 b1 a2 b2.
Proof.
  unfold qinter.
  rewrite (qclip_proper (qmin a2 c2 + - qmax a1 c1) (qmin c2 a2 + - qmax c1 a1))
    by (rewrite (qmin_comm a2 c2), (qmax_comm a1 c1); reflexivity).
  rewrite (qclip_proper (qmin b2 d2 + - qmax b1 d1) (qmin d2 b2 + - qmax d1 b1))
    by (rewrite (qmin_comm b2 d2), (qmax_comm b1 d1); reflexivity).
  reflexivity.
Qed.

Lemma fdiv_feq i i' u u' :
  i == i' -> u == u' -> feq (fdiv (Fin i) (Fin u)) (fdiv (Fin i') (Fin u')).
Proof.
  intros Hi Hu. unfold fdiv, signed_inf.
  destruct (Qeq_bool u 0) eqn:E1, (Qeq_bool u' 0) eqn:E2; qbool; try lra.
  - destruct (Qeq_bool i 0) eqn:E3, (Qeq_bool i' 0) eqn:E4; qbool; try lra;
      [exact I|].
    cbn [xorb].
    destruct (Qlt_bool i 0) eqn:E5, (Qlt_bool i' 0) eqn:E6; qbool;
      try lra; exact I.
  - cbn [feq]. rewrite Hi, Hu. reflexivity.
Qed.

(** X1: The overlap ratio of two boxes with finite corners does not depend on
    which of the two is the reference box. *)
Theorem jaccard_symmetric (a1 b1 a2 b2 c1 d1 c2 d2 : Q) :
  feq (jaccard1 (qbox a1 b1 a2 b2) (qbox c1 d1 c2 d2))
      (jaccard1 (qbox c1 d1 c2 d2) (qbox a1 b1 a2 b2)).
Proof.
  unfold jaccard1, qbox. rewrite !intersect1_fin, !union1_fin.
  apply fdiv_feq.
  - apply qinter_comm.
  - rewrite (qinter_comm a1 b1 a2 b2 c1 d1 c2 d2). ring.
Qed.





(** ** RandomSampleCrop: which annotations come back *)

Lemma select_combine {A B : Type} (mask : list bool) (a : list A) (b : list B) :
  select mask (combine a b) = combine (select mask a) (select mask b).
Proof.
  revert a b. induction mask as [|m mask IH]; intros [|x a] [|y b];
    cbn [select combine]; rewrite ?combine_nil; try reflexivity.
  destruct m; cbn [combine]; rewrite IH; reflexivity.
Qed.

Lemma combine_map_l {A B C : Type} (f : A -> C) (a : list A) (b : list B) :
  combine (map f a) b = map (fun p => (f (fst p), snd p)) (combine a b).
Proof.
  revert b. induction a as [|x a IH]; intros [|y b]; cbn; try reflexivity.
  rewrite IH. reflexivity.
Qed.

Lemma combine_map_r {A B C : Type} (f : B -> C) (a : list A) (b : list B) :
  combine a (map f b) = map (fun p => (fst p, f (snd p))) (combine a b).
Proof.
  revert b. induction a as [|x a IH]; intros [|y b]; cbn; try reflexivity.
  rewrite IH. reflexivity.
Qed.

(** X4: a successful crop drops boxes, class ids and masks together: the
    triples (box, id, mask) that come back are the input triples whose box
    centre lies strictly inside the rectangle, in their input order, each
    with its box clipped and its mask cut at that rectangle. *)
Theorem crop_drops_annotations_together s r lo hi s' :
  crop_at s r lo hi = Return (Some s') ->
  exists n h w v,
    s_masks s = Arr3 n h w v /\
    combine (combine (s_boxes s') (labels (s_labels s'))) (planes (s_masks s'))
    = map (fun t => (clip_to r (fst (fst t)), snd (fst t), crop_plane h w r (snd t)))
          (select (map (center_mask r) (s_boxes s))
                  (combine (combine (s_boxes s) (labels (s_labels s))) v)).
Proof.
  intro H.
  apply crop_at_success in H
    as (_ & _ & (n & h & w & v & Hm & _ & Hm') & Hb & _ & Hl & _).
  exists n, h, w, v. split; [assumption|].
  rewrite Hm', Hb, Hl. cbn [planes].
  rewrite !select_combine, combine_map_r, !combine_map_l, !map_map.
  apply map_ext. intros [[b l] m]. reflexivity.
Qed.

Lemma crop_drops_annotations_together_witness :
  exists n h w v,
    s_masks demo_sample = Arr3 n h w v /\
    combine (combine (s_boxes demo_cropped) (labels (s_labels demo_cropped)))
            (planes (s_masks demo_cropped))
    = map (fun t => (clip_to (Rect 3 3 7 7) (fst (fst t)), snd (fst t),
                     crop_plane h w (Rect 3 3 7 7) (snd t)))
          (select (map (center_mask (Rect 3 3 7 7)) (s_boxes demo_sample))
                  (combine (combine (s_boxes demo_sample)
                                    (labels (s_labels demo_sample))) v)).
Proof.
  apply (crop_drops_annotations_together demo_sample (Rect 3 3 7 7) NInf PInf).
  vm_compute. reflexivity.
Defined.

Lemma crowd_mask_all_crowd (n : nat) (nc : Z) :
  (0 < nc)%Z -> (Z.of_nat n <= nc)%Z -> crowd_mask n nc = repeat 1%Z n.
Proof.
  intros H0 Hn. unfold crowd_mask, tab.
  rewrite (map_ext_in _ (fun _ => 1%Z)).
  - generalize 0%nat. induction n as [|n IH]; intro a; cbn; [reflexivity|].
    f_equal. apply IH. lia.
  - intros i _. apply Z.ltb_lt in H0. rewrite H0. cbn.
    destruct (Z.leb_spec (Z.of_nat n - nc) (Z.of_nat i)); [reflexivity|lia].
Qed.

Lemma select_repeat_ones (mask : list bool) (n : nat) :
  np_sum (map (fun c => 1 - c)%Z (select mask (repeat 1%Z n))) = 0%Z.
Proof.
  revert n. induction mask as [|m mask IH]; intros [|n]; cbn [repeat select];
    try reflexivity.
  destruct m; cbn [map]; rewrite ?np_sum_cons, IH; reflexivity.
Qed.

Lemma all_crowd_no_regular_survivor s r :
  (Z.of_nat (length (s_boxes s)) <= num_crowds (s_labels s))%Z ->
  no_regular_survivor s r = true.
Proof.
  intro H. unfold no_regular_survivor. rewrite length_map.
  destruct (s_boxes s) as [|b bs] eqn:Hb; [reflexivity|].
  rewrite crowd_mask_all_crowd by (cbn [length] in *; lia).
  rewrite select_repeat_ones. apply orb_true_r.
Qed.

(** X5: when every annotation is a crowd entry ([num_crowds] is at least
    the number of boxes) no crop is ever accepted: if [RandomSampleCrop]
    returns, it returns the sample it was given. *)
Theorem all_crowd_sample_is_never_cropped fuel s t s' t' :
  (Z.of_nat (length (s_boxes s)) <= num_crowds (s_labels s))%Z ->
  RandomSampleCrop fuel s t = Return (s', t') -> s' = s.
Proof.
  intros Hall H.
  apply RandomSampleCrop_inv in H as [->|(r & lo & hi & _ & Hat)]; [reflexivity|].
  apply crop_at_success in Hat as (Hs & _).
  rewrite all_crowd_no_regular_survivor in Hs by assumption. discriminate.
Qed.

Lemma all_crowd_sample_is_never_cropped_witness :
  RandomSampleCrop 2 demo_crowds demo_long_tape = Return (demo_crowds, []) /\
  demo_crowds = demo_crowds.
Proof.
  assert (Hrun : RandomSampleCrop 2 demo_crowds demo_long_tape
                 = Return (demo_crowds, [])) by (vm_compute; reflexivity).
  split; [exact Hrun|].
  apply (all_crowd_sample_is_never_cropped 2 demo_crowds demo_long_tape
           demo_crowds []); [vm_compute; discriminate | exact Hrun].
Defined.

Lemma survivor_count (mask : list bool) (cm : list Z) :
  Forall (fun c => 0 <= c <= 1)%Z cm ->
  np_sum (map (fun c => 1 - c)%Z (select mask cm))
  = (Z.of_nat (length (select mask cm)) - np_sum (select mask cm))%Z.
Proof.
  intro H. revert mask. induction H as [|c l Hc Hl IH]; intros [|m mask];
    cbn [select map length]; try reflexivity.
  destruct m; cbn [map length]; rewrite ?np_sum_cons, IH; lia.
Qed.

(** X6: a crop that is accepted keeps at least one regular annotation:
    unless the sample comes back untouched, [num_crowds] is strictly less
    than the number of boxes returned, so the boxes are not all crowd
    entries and there is at least one of them. *)
Theorem crop_keeps_a_regular_annotation fuel s t s' t' :
  RandomSampleCrop fuel s t = Return (s', t') ->
  s' = s \/
  (num_crowds (s_labels s') < Z.of_nat (length (s_boxes s')))%Z.
Proof.
  intro H.
  apply RandomSampleCrop_inv in H as [->|(r & lo & hi & _ & Hat)]; [auto|right].
  apply crop_at_success in Hat as (Hs & _ & _ & Hb & _ & _ & Hn).
  cbn zeta in Hn. rewrite Hn, Hb, (length_map (clip_to r)).
  unfold no_regular_survivor in Hs. apply orb_false_iff in Hs as [_ Hs].
  apply Z.eqb_neq in Hs.
  set (mask := map (center_mask r) (s_boxes s)) in *.
  set (nc := num_crowds (s_labels s)) in *.
  pose proof (crowd_mask_entries (length mask) nc) as Hcm.
  rewrite (survivor_count mask _ Hcm) in Hs.
  pose proof (select_sum mask _ Hcm) as [_ H2].
  assert (H0 : (0 <= np_sum (select mask (crowd_mask (length mask) nc)))%Z).
  { apply np_sum_nonneg. rewrite Forall_forall in *.
    intros c Hc. apply Hcm. eapply select_In; eauto. }
  rewrite select_length in Hs, H2 by (rewrite crowd_mask_length; reflexivity).
  rewrite select_length by (unfold mask; apply length_map).
  destruct (Z.ltb_spec 0 nc); lia.
Qed.

Lemma crop_keeps_a_regular_annotation_witness :
  demo_cropped = demo_sample \/
  (num_crowds (s_labels demo_cropped) < Z.of_nat (length (s_boxes demo_cropped)))%Z.
Proof.
  apply (crop_keeps_a_regular_annotation 1 demo_sample demo_tape demo_cropped []).
  vm_compute. reflexivity.
Defined.

(** ** RandomSampleCrop: the crowd entries stay at the end *)

Lemma crowd_mask_split (n : nat) (nc : Z) :
  exists a b, (a + b = n)%nat /\
              crowd_mask n nc = repeat 0%Z a ++ repeat 1%Z b.
Proof.
  destruct (Z.ltb_spec 0 nc) as [Hpos|Hneg].
  - set (b := Z.to_nat (Z.min nc (Z.of_nat n))). exists (n - b)%nat, b.
    assert (Hb : (b <= n)%nat) by (unfold b; lia).
    split; [lia|]. unfold crowd_mask, tab.
    assert (Hseq : seq 0 n = seq 0 (n - b) ++ seq (0 + (n - b)) b)
      by (rewrite <- seq_app; f_equal; lia).
    rewrite Hseq, map_app. f_equal.
    + rewrite (map_ext_in _ (fun _ => 0%Z)).
      * rewrite map_const, length_seq. reflexivity.
      * intros i Hi. apply in_seq in Hi.
        apply Z.ltb_lt in Hpos. rewrite Hpos. cbn [andb].
        apply Z.ltb_lt in Hpos.
        destruct (Z.leb_spec (Z.of_nat n - nc) (Z.of_nat i)); [|reflexivity].
        unfold b in *. lia.
    + rewrite (map_ext_in _ (fun _ => 1%Z)).
      * rewrite map_const, length_seq. reflexivity.
      * intros i Hi. apply in_seq in Hi.
        apply Z.ltb_lt in Hpos. rewrite Hpos. cbn [andb].
        apply Z.ltb_lt in Hpos.
        destruct (Z.leb_spec (Z.of_nat n - nc) (Z.of_nat i)); [reflexivity|].
        unfold b in *. lia.
  - exists n, 0%nat. split; [lia|]. unfold crowd_mask, tab. cbn [repeat].
    rewrite app_nil_r, (map_ext_in _ (fun _ => 0%Z)).
    + rewrite map_const, length_seq. reflexivity.
    + intros i _. apply Z.ltb_ge in Hneg. rewrite Hneg. reflexivity.
Qed.

Lemma select_zeros_ones (mask : list bool) (a b : nat) :
  exists a' b',
    select mask (repeat 0%Z a ++ repeat 1%Z b) = repeat 0%Z a' ++ repeat 1%Z b'.
Proof.
  revert mask. induction a as [|a IH]; intro mask.
  - exists 0%nat. cbn [repeat app].
    revert mask. induction b as [|b IHb]; intro mask.
    + exists 0%nat. destruct mask; reflexivity.
    + destruct mask as [|m mask]; [exists 0%nat; reflexivity|].
      destruct (IHb mask) as [b' Hb']. cbn [repeat select].
      destruct m; [exists (S b')|exists b']; cbn [repeat]; rewrite Hb'; reflexivity.
  - destruct mask as [|m mask]; [exists 0%nat, 0%nat; reflexivity|].
    destruct (IH mask) as (a' & b' & H). cbn [repeat app select].
    destruct m; [exists (S a'), b'|exists a', b']; cbn [repeat app]; rewrite H;
      reflexivity.
Qed.

Lemma np_sum_zeros_ones (a b : nat) :
  np_sum (repeat 0%Z a ++ repeat 1%Z b) = Z.of_nat b.
Proof.
  induction a as [|a IH]; cbn [repeat app].
  - induction b as [|b IHb]; [reflexivity|].
    cbn [repeat]. rewrite np_sum_cons, IHb. lia.
  - rewrite np_sum_cons, IH. lia.
Qed.

Lemma crowd_mask_zeros_ones (a b : nat) :
  crowd_mask (a + b) (Z.of_nat b) = repeat 0%Z a ++ repeat 1%Z b.
Proof.
  destruct (crowd_mask_split (a + b) (Z.of_nat b)) as (a' & b' & Hab & H).
  rewrite H.
  assert (Hsum : np_sum (crowd_mask (a + b) (Z.of_nat b)) = Z.of_nat b').
  { rewrite H. apply np_sum_zeros_ones. }
  destruct b as [|b].
  - assert (b' = 0)%nat.
    { pose proof (np_sum_nonneg _ (crowd_mask_entries (a + 0) (Z.of_nat 0))).
      unfold crowd_mask, tab in Hsum. cbn [Z.of_nat Z.ltb andb] in Hsum.
      rewrite (map_ext _ (fun _ => 0%Z)) in Hsum by reflexivity.
      rewrite map_const, length_seq in Hsum.
      change (repeat 0%Z (a + 0)) with (repeat 0%Z (a + 0) ++ repeat 1%Z 0) in Hsum
        || rewrite <- (app_nil_r (repeat 0%Z (a + 0))) in Hsum.
      change (@nil Z) with (repeat 1%Z 0) in Hsum.
      rewrite np_sum_zeros_ones in Hsum. lia. }
    subst b'. f_equal. f_equal. lia.
  - pose proof (crowd_mask_sum (a + S b) (Z.of_nat (S b)) ltac:(lia)) as Hle.
    assert (Hge : (Z.of_nat (S b) <= np_sum (crowd_mask (a + S b) (Z.of_nat (S b))))%Z).
    { clear Hsum H Hab Hle. unfold crowd_mask, tab.
      rewrite seq_app, map_app.
      assert (Hsplit : forall l1 l2, np_sum (l1 ++ l2) = (np_sum l1 + np_sum l2)%Z).
      { induction l1; intro l2; cbn [app]; rewrite ?np_sum_cons, ?IHl1;
          [reflexivity|lia]. }
      rewrite Hsplit.
      assert (H1 : (0 <= np_sum (map (fun i : nat =>
                 if ((0 <? Z.of_nat (S b)) &&
                     (Z.of_nat (a + S b) - Z.of_nat (S b) <=? Z.of_nat i))%Z
                 then 1%Z else 0%Z) (seq 0 a)))%Z).
      { apply np_sum_nonneg. rewrite Forall_map. apply Forall_forall.
        intros i _. destruct (_ && _); lia. }
      rewrite (map_ext_in _ (fun _ => 1%Z) (seq (0 + a) (S b))).
      - rewrite map_const, length_seq.
        change (repeat 1%Z (S b)) with (repeat 0%Z 0 ++ repeat 1%Z (S b)).
        rewrite np_sum_zeros_ones. lia.
      - intros i Hi. apply in_seq in Hi.
        destruct (Z.ltb_spec 0 (Z.of_nat (S b))); [|lia]. cbn [andb].
        destruct (Z.leb_spec (Z.of_nat (a + S b) - Z.of_nat (S b)) (Z.of_nat i));
          [reflexivity|lia]. }
    assert (b' = S b) by lia. subst b'. f_equal. f_equal. lia.
Qed.

Lemma crowd_mask_nonpos (n : nat) (nc : Z) :
  (nc <= 0)%Z -> crowd_mask n nc = repeat 0%Z n.
Proof.
  intro H. unfold crowd_mask, tab. rewrite (map_ext _ (fun _ => 0%Z)).
  - rewrite map_const, length_seq. reflexivity.
  - intro i. apply Z.ltb_ge in H. rewrite H. reflexivity.
Qed.

Lemma select_zeros (mask : list bool) (n : nat) :
  exists n', select mask (repeat 0%Z n) = repeat 0%Z n'.
Proof.
  revert n. induction mask as [|m mask IH]; intros [|n];
    try (exists 0%nat; reflexivity).
  destruct (IH n) as [n' H]. cbn [repeat select].
  destruct m; [exists (S n')|exists n']; cbn [repeat]; rewrite H; reflexivity.
Qed.

(** X7: an accepted crop keeps the crowd convention: an annotation that
    comes back is a crowd entry of the returned bundle (one of its last
    [num_crowds] entries) exactly when it was one of the input, so the
    crowd entries are still the trailing ones and [num_crowds] counts
    them. *)
Theorem crop_keeps_crowds_trailing s r lo hi s' :
  crop_at s r lo hi = Return (Some s') ->
  crowd_mask (length (s_boxes s')) (num_crowds (s_labels s'))
  = select (map (center_mask r) (s_boxes s))
           (crowd_mask (length (s_boxes s)) (num_crowds (s_labels s))).
Proof.
  intro H. apply crop_at_success in H as (_ & _ & _ & Hb & _ & _ & Hn).
  cbn zeta in Hn. rewrite Hn, Hb, (length_map (clip_to r)).
  rewrite (length_map (center_mask r)).
  set (mask := map (center_mask r) (s_boxes s)).
  set (n := length (s_boxes s)). set (nc := num_crowds (s_labels s)).
  assert (Hlen : length (select mask (s_boxes s))
                 = length (select mask (crowd_mask n nc))).
  { rewrite !select_length; auto.
    - rewrite crowd_mask_length. unfold mask, n. apply length_map.
    - unfold mask. apply length_map. }
  rewrite Hlen.
  destruct (Z.ltb_spec 0 nc) as [Hpos|Hneg].
  - destruct (crowd_mask_split n nc) as (a & b & _ & ->).
    destruct (select_zeros_ones mask a b) as (a' & b' & ->).
    rewrite np_sum_zeros_ones, length_app, !repeat_length.
    apply crowd_mask_zeros_ones.
  - rewrite (crowd_mask_nonpos n nc Hneg).
    destruct (select_zeros mask n) as [n' ->].
    rewrite repeat_length. apply crowd_mask_nonpos. assumption.
Qed.

Lemma crop_keeps_crowds_trailing_witness :
  crowd_mask (length (s_boxes demo_cropped)) (num_crowds (s_labels demo_cropped))
  = select (map (center_mask (Rect 3 3 7 7)) (s_boxes demo_sample))
           (crowd_mask (length (s_boxes demo_sample))
                       (num_crowds (s_labels demo_sample))).
Proof.
  apply (crop_keeps_crowds_trailing demo_sample (Rect 3 3 7 7) NInf PInf).
  vm_compute. reflexivity.
Defined.

(** ** RandomSampleCrop: the pixels that come back *)

Lemma slice_of_nil {A : Type} (n : nat) (a b : Z) : slice_of n a b (@nil A) = [].
Proof. unfold slice_of. rewrite skipn_nil, firstn_nil. reflexivity. Qed.

Lemma slice_of_nth {A : Type} (n : nat) (a b : Z) (l : list A) (i : nat) (d : A) :
  (i < slice_len n a b)%nat ->
  nth i (slice_of n a b l) d = nth (slice_start n a b + i) l d.
Proof.
  intro H. unfold slice_of. rewrite nth_firstn.
  apply Nat.ltb_lt in H. rewrite H. apply nth_skipn.
Qed.

Lemma crop_plane_nth (h w : nat) (r : rect) (m : list (list Q)) (i j : nat) :
  (i < slice_len h (rc1 r) (rc3 r))%nat ->
  (j < slice_len w (rc0 r) (rc2 r))%nat ->
  nth j (nth i (crop_plane h w r m) []) 0
  = nth (slice_start w (rc0 r) (rc2 r) + j)
        (nth (slice_start h (rc1 r) (rc3 r) + i) m []) 0.
Proof.
  intros Hi Hj. unfold crop_plane.
  rewrite <- (slice_of_nil w (rc0 r) (rc2 r)) at 1.
  rewrite map_nth, !slice_of_nth by assumption. reflexivity.
Qed.

(** X8: the image and the kept masks are cut at the same place: pixel
    [(i, j)] of the returned image is pixel [(y + i, x + j)] of the input
    image, and pixel [(i, j)] of a returned mask is pixel [(y + i, x + j)]
    of the input mask it comes from, where [(x, y)] is the top-left corner
    of the rectangle clipped to the image. *)
Theorem crop_cuts_image_and_masks_alike s r lo hi s' h w c v :
  s_image s = Arr3 h w c v -> aligned s ->
  crop_at s r lo hi = Return (Some s') ->
  let y := slice_start h (rc1 r) (rc3 r) in
  let x := slice_start w (rc0 r) (rc2 r) in
  shape (s_image s') = [slice_len h (rc1 r) (rc3 r); slice_len w (rc0 r) (rc2 r); c] /\
  forall i j,
    (i < slice_len h (rc1 r) (rc3 r))%nat ->
    (j < slice_len w (rc0 r) (rc2 r))%nat ->
    (forall k, at3 (s_image s') i j k = at3 (s_image s) (y + i) (x + j) k) /\
    (forall m, In m (select (map (center_mask r) (s_boxes s)) (planes (s_masks s))) ->
               nth j (nth i (crop_plane h w r m) []) 0
               = nth (x + j) (nth (y + i) m []) 0) /\
    planes (s_masks s')
    = map (crop_plane h w r)
          (select (map (center_mask r) (s_boxes s)) (planes (s_masks s))).
Proof.
  intros Him Ha H y x.
  apply crop_at_success in H as (_ & Hci & (n & mh & mw & mv & Hm & _ & Hm') & _).
  unfold aligned in Ha. rewrite Him, Hm in Ha. cbn in Ha. injection Ha as -> ->.
  rewrite Him in Hci. cbn in Hci. injection Hci as Hci. rewrite <- Hci.
  split; [reflexivity|].
  intros i j Hi Hj. repeat split.
  - intro k. rewrite Him. unfold at3, get3. cbn [planes].
    rewrite <- (slice_of_nil w (rc0 r) (rc2 r)) at 1.
    rewrite map_nth, !slice_of_nth by assumption. reflexivity.
  - intros m _. apply crop_plane_nth; assumption.
  - rewrite Hm', Hm. reflexivity.
Qed.

Lemma crop_cuts_image_and_masks_alike_witness :
  at3 (s_image demo_cropped) 1 2 1 = at3 (s_image demo_sample) 4 5 1.
Proof.
  destruct (crop_cuts_image_and_masks_alike demo_sample (Rect 3 3 7 7) NInf PInf
              demo_cropped 10 10 3
              (tab 10 (fun i => tab 10 (fun j =>
                 [inject_Z (Z.of_nat i); inject_Z (Z.of_nat j); 0]))))
    as [_ H].
  - reflexivity.
  - reflexivity.
  - vm_compute. reflexivity.
  - destruct (H 1%nat 2%nat) as [Hpix _]; [vm_compute; lia | vm_compute; lia |].
    exact (Hpix 1%nat).
Defined.

(** ** Pad *)

Lemma tab_nth {A : Type} (n : nat) (f : nat -> A) (i : nat) (d : A) :
  (i < n)%nat -> nth i (tab n f) d = f i.
Proof.
  intro H. unfold tab.
  rewrite (nth_indep _ d (f 0%nat)) by (rewrite length_map, length_seq; exact H).
  rewrite map_nth, seq_nth by exact H. reflexivity.
Qed.

Lemma get3_tab (d0 d1 d2 : nat) (f : nat -> nat -> nat -> Q) (i j k : nat) :
  (i < d0)%nat -> (j < d1)%nat -> (k < d2)%nat ->
  get3 (tab d0 (fun i => tab d1 (fun j => tab d2 (fun k => f i j k)))) i j k
  = f i j k.
Proof.
  intros Hi Hj Hk. unfold get3. rewrite !tab_nth by assumption. reflexivity.
Qed.

Lemma norm_index_nonneg (n : nat) (i : nat) :
  norm_index n (Z.of_nat i) = Nat.min i n.
Proof. unfold norm_index. destruct (Z.ltb_spec (Z.of_nat i) 0); lia. Qed.

Lemma slice_len_prefix (n i : nat) : slice_len n 0 (Z.of_nat i) = Nat.min i n.
Proof.
  unfold slice_len. rewrite norm_index_nonneg.
  change 0%Z with (Z.of_nat 0). rewrite norm_index_nonneg. cbn. lia.
Qed.

Lemma broadcasts_refl (n : nat) : broadcasts n n = true.
Proof. unfold broadcasts. rewrite Nat.eqb_refl. reflexivity. Qed.

Lemma np_zeros3_nat (d0 d1 d2 : nat) :
  np_zeros3 (Z.of_nat d0) (Z.of_nat d1) (Z.of_nat d2)
  = Return (Arr3 d0 d1 d2 (tab d0 (fun _ => tab d1 (fun _ => tab d2 (fun _ => 0))))).
Proof.
  unfold np_zeros3.
  assert (E : ((Z.of_nat d0 <? 0) || (Z.of_nat d1 <? 0) || (Z.of_nat d2 <? 0))%Z
              = false).
  { rewrite !orb_false_iff. repeat split; apply Z.ltb_ge; lia. }
  rewrite E, !Nat2Z.id. reflexivity.
Qed.

(** Writing a value whose extents are those of the region. *)
Lemma assign3_fits d0 d1 d2 tv s0 s1 s2 v0 v1 v2 vv :
  exists av,
    assign3 (Arr3 d0 d1 d2 tv) s0 v0 s1 v1 s2 v2 (Arr3 v0 v1 v2 vv)
    = Return (Arr3 d0 d1 d2 av) /\
    forall i j k,
      (i < d0)%nat -> (j < d1)%nat -> (k < d2)%nat ->
      get3 av i j k
      = if (s0 <=? i)%nat && (i <? s0 + v0)%nat &&
           (s1 <=? j)%nat && (j <? s1 + v1)%nat &&
           (s2 <=? k)%nat && (k <? s2 + v2)%nat
        then get3 vv (i - s0) (j - s1) (k - s2)
        else get3 tv i j k.
Proof.
  unfold assign3. rewrite !broadcasts_refl. cbn [andb].
  eexists. split; [reflexivity|].
  intros i j k Hi Hj Hk. rewrite get3_tab by assumption.
  destruct (_ && _) eqn:E; [|reflexivity].
  rewrite !andb_true_iff, !Nat.leb_le, !Nat.ltb_lt in E.
  destruct (Nat.eqb_spec v0 1), (Nat.eqb_spec v1 1), (Nat.eqb_spec v2 1);
    repeat f_equal; lia.
Qed.

Lemma fill_mean_ok d0 d1 tv :
  exists fv,
    fill_mean (Arr3 d0 d1 3 tv) = Return (Arr3 d0 d1 3 fv) /\
    forall i j k,
      (i < d0)%nat -> (j < d1)%nat -> (k < 3)%nat ->
      get3 fv i j k = nth k MEANS 0.
Proof.
  cbn [fill_mean]. unfold assign3, broadcasts. cbn [Nat.eqb orb andb].
  rewrite !orb_true_r. cbn [andb].
  eexists. split; [reflexivity|].
  intros i j k Hi Hj Hk. rewrite get3_tab by assumption.
  cbn [Nat.leb Nat.add andb Nat.eqb].
  apply Nat.ltb_lt in Hi, Hj, Hk. rewrite Hi, Hj, Hk. cbn [andb].
  apply Nat.ltb_lt in Hk.
  destruct k as [|[|[|k]]]; [reflexivity|reflexivity|reflexivity|lia].
Qed.

Lemma Pad_run_when_image_fits
        (width height : nat) (pad_gt : bool) (s : sample) (t : tape)
        (im_h im_w : nat) v :
  s_image s = Arr3 im_h im_w 3 v ->
  (im_h <= height)%nat -> (im_w <= width)%nat ->
  (pad_gt = true -> exists n mv, s_masks s = Arr3 n im_h im_w mv) ->
  exists s',
    Pad (Z.of_nat width) (Z.of_nat height) pad_gt s t = Return (s', t) /\
    shape (s_image s') = [height; width; 3%nat] /\
    (forall i j k,
        (i < height)%nat -> (j < width)%nat -> (k < 3)%nat ->
        at3 (s_image s') i j k
        = if (i <? im_h)%nat && (j <? im_w)%nat
          then at3 (s_image s) i j k else nth k MEANS 0) /\
    s_boxes s' = s_boxes s /\ s_labels s' = s_labels s /\
    (pad_gt = false -> s_masks s' = s_masks s).
Proof.
  intros Him Hh Hw Hm. unfold Pad. rewrite Him.
  cbn [unpack_shape3 obind lift].
  change (Z.of_nat 3) with (Z.of_nat 3%nat).
  rewrite (np_zeros3_nat height width 3). cbn [obind].
  destruct (fill_mean_ok height width
              (tab height (fun _ => tab width (fun _ => tab 3 (fun _ => 0)))))
    as (fv & -> & Hfv).
  cbn [obind]. rewrite !Nat2Z.id, !slice_len_prefix, !Nat.min_l by assumption.
  destruct (assign3_fits height width 3 fv 0 0 0 im_h im_w 3 v)
    as (av & -> & Hav).
  cbn [obind].
  assert (Hpix : forall i j k,
             (i < height)%nat -> (j < width)%nat -> (k < 3)%nat ->
             get3 av i j k
             = if (i <? im_h)%nat && (j <? im_w)%nat
               then get3 v i j k else nth k MEANS 0).
  { intros i j k Hi Hj Hk. rewrite Hav by assumption.
    rewrite !Nat.sub_0_r.
    change (0 <=? i)%nat with true. change (0 <=? j)%nat with true.
    change (0 <=? k)%nat with true.
    change (0 + im_h)%nat with im_h. change (0 + im_w)%nat with im_w.
    change (0 + 3)%nat with 3%nat.
    assert (Ek : (k <? 3)%nat = true) by (apply Nat.ltb_lt; exact Hk).
    rewrite Ek. cbn [andb]. rewrite !andb_true_r.
    destruct ((i <? im_h)%nat && (j <? im_w)%nat); [reflexivity|].
    apply Hfv; assumption. }
  destruct pad_gt.
  - destruct (Hm eq_refl) as (n & mv & Hmask). rewrite Hmask. cbn [shape0].
    rewrite (np_zeros3_nat n height width). cbn [obind].
    destruct (assign3_fits n height width
                (tab n (fun _ => tab height (fun _ => tab width (fun _ => 0))))
                0 0 0 n im_h im_w mv) as (am & -> & _).
    cbn [obind]. eexists. split; [reflexivity|].
    cbn [s_image s_masks s_boxes s_labels shape]. unfold at3. cbn [planes].
    repeat split; auto. discriminate.
  - cbn [obind]. eexists. split; [reflexivity|].
    cbn [s_image s_masks s_boxes s_labels shape]. unfold at3. cbn [planes].
    repeat split; auto.
Qed.



(** X10: an image that is higher or wider than the canvas is rejected:
    [Pad] raises [ValueError], whatever [pad_gt] is (an extent of exactly 1
    is the one exception, numpy broadcasts it). *)
Theorem Pad_rejects_larger_image
        (width height : Z) (pad_gt : bool) (s : sample) (t : tape)
        (im_h im_w depth : nat) v :
  s_image s = Arr3 im_h im_w depth v ->
  (height < Z.of_nat im_h /\ im_h <> 1%nat)%Z \/
  (width < Z.of_nat im_w /\ im_w <> 1%nat)%Z ->
  Pad width height pad_gt s t = Raise ValueError.
Proof.
  intros Him Hbig. unfold Pad. rewrite Him. cbn [unpack_shape3 obind lift].
  unfold np_zeros3 at 1.
  destruct (_ || _)%bool eqn:Eneg; [reflexivity|].
  rewrite !orb_false_iff, !Z.ltb_ge in Eneg. destruct Eneg as [[Hh Hw] _].
  cbn [obind fill_mean]. rewrite Nat2Z.id.
  unfold assign3 at 1.
  destruct (_ && _)%bool; [|reflexivity]. cbn [obind].
  unfold assign3.
  assert (E : broadcasts im_h (slice_len (Z.to_nat height) 0 (Z.of_nat im_h))
              && broadcasts im_w (slice_len (Z.to_nat width) 0 (Z.of_nat im_w))
              = false).
  { rewrite !slice_len_prefix. unfold broadcasts.
    destruct Hbig as [[H1 H2]|[H1 H2]].
    - apply andb_false_intro1. apply orb_false_iff.
      split; apply Nat.eqb_neq; lia.
    - apply andb_false_intro2. apply orb_false_iff.
      split; apply Nat.eqb_neq; lia. }
  rewrite E. reflexivity.
Qed.

Lemma Pad_rejects_larger_image_witness :
  Pad 8 12 false demo_sample [] = Raise ValueError.
Proof.
  apply (Pad_rejects_larger_image 8 12 false demo_sample [] 10 10 3
           (tab 10 (fun i => tab 10 (fun j =>
              [inject_Z (Z.of_nat i); inject_Z (Z.of_nat j); 0])))).
  - reflexivity.
  - right. split; [lia | discriminate].
Defined.

(** ** RandomMirror *)

Lemma rev_nth_row {A : Type} (l : list A) (w j : nat) (d : A) :
  length l = w \/ l = [] -> (j < w)%nat ->
  nth j (rev l) d = nth (w - 1 - j) l d.
Proof.
  intros [H| ->] Hj.
  - rewrite rev_nth by lia. f_equal. lia.
  - cbn. destruct j, (w - 1 - _)%nat; reflexivity.
Qed.

Lemma nth_row_length (v : list (list Q)) (w i : nat) :
  Forall (fun r => length r = w) v ->
  length (nth i v []) = w \/ nth i v [] = [].
Proof.
  intro H. destruct (Nat.lt_ge_cases i (length v)) as [Hi|Hi].
  - left. rewrite Forall_forall in H. apply H. apply nth_In. exact Hi.
  - right. apply nth_overflow. exact Hi.
Qed.

(** X11: when [RandomMirror] flips, pixel column [j] of the image and of
    every mask becomes column [width - 1 - j], and every box gets
    [x1' = width - x2], [x2' = width - x1] with its [y] range unchanged:
    image, masks and boxes are reflected about the same vertical axis. *)
Theorem RandomMirror_reflects_pixels_and_boxes s t s' t' h w c v :
  s_image s = Arr3 h w c v ->
  wf_array (s_image s) -> wf_array (s_masks s) -> aligned s ->
  RandomMirror s t = Return (s', t') ->
  s' = s \/
  (s_boxes s' = map (reflect w) (s_boxes s) /\
   shape (s_image s') = shape (s_image s) /\
   shape (s_masks s') = shape (s_masks s) /\
   forall i j k,
     (j < w)%nat ->
     at3 (s_image s') i j k = at3 (s_image s) i (w - 1 - j) k /\
     at3 (s_masks s') k i j = at3 (s_masks s) k i (w - 1 - j)).
Proof.
  intros Him Hwi Hwm Ha H.
  apply RandomMirror_inv in H
    as [->|(h' & w' & c' & v' & n & mh & mw & mv & Him' & Hm & ->)]; [auto|right].
  rewrite Him in Him'. injection Him' as <- <- <- <-.
  unfold aligned in Ha. rewrite Him, Hm in Ha. cbn in Ha. injection Ha as -> ->.
  rewrite Him in Hwi. rewrite Hm in Hwm. cbn in Hwi, Hwm.
  destruct Hwi as [_ Hrows]. destruct Hwm as [_ Hplanes].
  cbn [s_image s_masks s_boxes]. rewrite Him, Hm.
  repeat split.
  - unfold at3, get3. cbn [planes].
    rewrite (map_nth (@rev (list Q)) v [] i : nth i (map (@rev (list Q)) v) [] = _).
    f_equal. apply rev_nth_row; [|assumption].
    destruct (Nat.lt_ge_cases i (length v)) as [Hi|Hi].
    + left. rewrite Forall_forall in Hrows. apply Hrows. apply nth_In. exact Hi.
    + right. apply nth_overflow. exact Hi.
  - unfold at3, get3. cbn [planes].
    rewrite (map_nth (map (@rev Q)) mv [] k
             : nth k (map (map (@rev Q)) mv) [] = _).
    rewrite (map_nth (@rev Q) (nth k mv []) [] i
             : nth i (map (@rev Q) (nth k mv [])) [] = _).
    apply rev_nth_row; [|assumption].
    apply nth_row_length.
    destruct (Nat.lt_ge_cases k (length mv)) as [Hk|Hk].
    + rewrite Forall_forall in Hplanes.
      destruct (Hplanes (nth k mv []) (nth_In _ _ Hk)) as [_ Hr].
      eapply Forall_impl; [|exact Hr]. cbn. auto.
    + rewrite nth_overflow by exact Hk. constructor.
Qed.

Lemma RandomMirror_reflects_pixels_and_boxes_witness :
  exists s',
    RandomMirror demo_sample [3 # 4] = Return (s', []) /\
    (s' = demo_sample \/
     (s_boxes s' = map (reflect 10) (s_boxes demo_sample) /\
      shape (s_image s') = shape (s_image demo_sample) /\
      shape (s_masks s') = shape (s_masks demo_sample) /\
      forall i j k,
        (j < 10)%nat ->
        at3 (s_image s') i j k = at3 (s_image demo_sample) i (10 - 1 - j) k /\
        at3 (s_masks s') k i j = at3 (s_masks demo_sample) k i (10 - 1 - j))).
Proof.
  eexists. split; [vm_compute; reflexivity|].
  eapply (RandomMirror_reflects_pixels_and_boxes demo_sample [3 # 4] _ [] 10 10 3).
  - reflexivity.
  - apply demo_sample_wf.
  - apply demo_sample_wf.
  - reflexivity.
  - vm_compute. reflexivity.
Defined.

(** ** Resize and percent coordinates *)





(** ** Expand *)

Lemma random_inv (t t1 : tape) (x : Q) :
  random t = Return (x, t1) -> t = x :: t1.
Proof. destruct t; cbn; intro H; inversion H; reflexivity. Qed.

Lemma random_uniform_inv (a b x : Q) (t t1 : tape) :
  random_uniform a b t = Return (x, t1) ->
  exists u, t = u :: t1 /\ x = a + (b - a) * u.
Proof.
  unfold random_uniform. intro H.
  apply bind_inv in H as (u & t0 & Hu & H).
  apply random_inv in Hu. apply ret_inv in H as [<- <-]. eauto.
Qed.

Lemma random_randint01_inv (c : bool) (t t1 : tape) :
  random_randint01 t = Return (c, t1) -> exists u, t = u :: t1.
Proof.
  unfold random_randint01. intro H.
  apply bind_inv in H as (u & t0 & Hu & H).
  apply random_inv in Hu. apply ret_inv in H as [_ <-]. eauto.
Qed.











(** ** Photometric transforms *)

Lemma shift_hue_range (x h : Q) :
  - (360) <= x <= 360 -> 0 <= h <= 360 -> 0 <= shift_hue x h <= 360.
Proof.
  intros Hx Hh. unfold shift_hue. qcase; lra.
Qed.

Lemma uniform_range (a b u : Q) :
  a <= b -> 0 <= u < 1 -> a <= a + (b - a) * u <= b.
Proof. intros Hab Hu. split; nra. Qed.

Lemma nth2_map (u : list Q -> list Q) (v : list (list (list Q))) (i j : nat) :
  u [] = [] ->
  nth j (nth i (map (map u) v) []) [] = u (nth j (nth i v []) []).
Proof.
  intro Hu.
  transitivity (nth j (map u (nth i v [])) []).
  - f_equal. exact (map_nth (map u) v [] i).
  - pose proof (map_nth u (nth i v []) [] j) as E. rewrite Hu in E. exact E.
Qed.

Lemma at3_map_channel_0 (f : Q -> Q) (a b : ndarray) (i j : nat) :
  map_channel 0 f a = Return b ->
  at3 b i j 0 = f (at3 a i j 0) \/ at3 b i j 0 = 0.
Proof.
  destruct a as [|d0 d1 d2 v]; [discriminate|]. unfold map_channel.
  destruct (0 <? d2)%nat; [|discriminate]. intro H. injection H as <-.
  unfold at3, get3, planes.
  rewrite (nth2_map (update 0 f)) by reflexivity.
  destruct (nth j (nth i v []) []) as [|x p]; cbn; auto.
Qed.

(** X14: [RandomHue] with an accepted [delta] (between 0 and 360) keeps
    the hue channel in range: if every hue value of the image lies in
    [[0, 360]], so does every hue value of the returned image, whatever
    the draws in [[0, 1)]; masks, boxes and labels are not touched. *)
Theorem RandomHue_keeps_hue_in_range (delta : Q) s t s' t' :
  hue_delta_accepted delta = true -> valid_tape t ->
  hue_in_range (s_image s) ->
  RandomHue delta s t = Return (s', t') ->
  hue_in_range (s_image s') /\
  s_masks s' = s_masks s /\ s_boxes s' = s_boxes s /\ s_labels s' = s_labels s.
Proof.
  intros Hd Hvalid Hin H. unfold hue_delta_accepted in Hd.
  apply andb_true_iff in Hd as [Hd0 Hd1]. qbool.
  unfold RandomHue in H.
  apply bind_inv in H as (coin & t0 & Hcoin & H).
  apply random_randint01_inv in Hcoin as (u0 & ->).
  destruct coin; [|apply ret_inv in H as [<- _]; auto].
  apply bind_inv in H as (x & t1 & Hx & H).
  apply random_uniform_inv in Hx as (u & -> & Hx).
  apply bind_inv in H as (image & t2 & Hi & H).
  apply lift_inv in Hi as [Hi _]. apply ret_inv in H as [<- _].
  cbn [with_image s_image s_masks s_boxes s_labels].
  split; [|auto].
  inversion Hvalid as [|? ? _ Hv]; subst. inversion Hv as [|? ? Hu _]; subst.
  assert (Hrange : - (360) <= - delta + (delta - - delta) * u <= 360).
  { pose proof (uniform_range (- delta) delta u ltac:(lra) Hu). lra. }
  intros i j.
  destruct (at3_map_channel_0 _ _ _ i j Hi) as [-> | ->]; [|lra].
  apply shift_hue_range; auto.
Qed.

Lemma RandomHue_keeps_hue_in_range_witness :
  let s := Sample (Arr3 1 2 3 [[[350; 1 # 2; 200]; [5; 1; 10]]])
                  (Arr3 0 1 2 []) [] (Labels [] 0) in
  exists s',
    RandomHue 18 s [3 # 4; 9 # 10] = Return (s', []) /\
    hue_in_range (s_image s') /\
    s_masks s' = s_masks s /\ s_boxes s' = s_boxes s /\ s_labels s' = s_labels s.
Proof.
  intro s. eexists. split; [vm_compute; reflexivity|].
  eapply (RandomHue_keeps_hue_in_range 18 s [3 # 4; 9 # 10] _ []).
  - reflexivity.
  - repeat constructor; vm_compute; discriminate.
  - intros i j. unfold at3, get3, s. cbn [planes s_image].
    destruct i as [|[|i]], j as [|[|[|j]]]; cbn; unfold Qle; cbn; lia.
  - vm_compute. reflexivity.
Defined.

Lemma Compose_keeps_ground_truth (ts : list transform) :
  Forall keeps_ground_truth ts -> keeps_ground_truth (Compose ts).
Proof.
  induction 1 as [|f ts Hf _ IH]; intros s t s' t' H; cbn [Compose] in H.
  - apply ret_inv in H as [<- _]. auto.
  - apply bind_inv in H as (s1 & t1 & H1 & H2).
    apply Hf in H1 as (E1 & E2 & E3). apply IH in H2 as (F1 & F2 & F3).
    repeat split; congruence.
Qed.

Lemma Compose_keeps_image_shape (ts : list transform) :
  Forall keeps_image_shape ts -> keeps_image_shape (Compose ts).
Proof.
  induction 1 as [|f ts Hf _ IH]; intros s t s' t' H; cbn [Compose] in H.
  - apply ret_inv in H as [<- _]. auto.
  - apply bind_inv in H as (s1 & t1 & H1 & H2).
    apply Hf in H1. apply IH in H2. congruence.
Qed.

Lemma map_elements_shape (f : Q -> Q) (a : ndarray) :
  shape (map_elements f a) = shape a.
Proof. destruct a; reflexivity. Qed.

Lemma map_channel_shape (c : nat) (f : Q -> Q) (a b : ndarray) :
  map_channel c f a = Return b -> shape b = shape a.
Proof.
  destruct a as [|d0 d1 d2 v]; cbn [map_channel]; [discriminate|].
  destruct (c <? d2)%nat; [|discriminate]. intro H. injection H as <-. reflexivity.
Qed.

Lemma RandomContrast_photometric lower upper :
  keeps_ground_truth (RandomContrast lower upper) /\
  keeps_image_shape (RandomContrast lower upper).
Proof.
  split; intros s t s' t' H; unfold RandomContrast in H;
    apply bind_inv in H as ([|] & t0 & _ & H);
    try (apply ret_inv in H as [<- _]; auto; fail);
    apply bind_inv in H as (x & t1 & _ & H); apply ret_inv in H as [<- _];
    cbn; auto using map_elements_shape.
Qed.

Lemma RandomBrightness_photometric delta :
  keeps_ground_truth (RandomBrightness delta) /\
  keeps_image_shape (RandomBrightness delta).
Proof.
  split; intros s t s' t' H; unfold RandomBrightness in H;
    apply bind_inv in H as ([|] & t0 & _ & H);
    try (apply ret_inv in H as [<- _]; auto; fail);
    apply bind_inv in H as (x & t1 & _ & H); apply ret_inv in H as [<- _];
    cbn; auto using map_elements_shape.
Qed.

Lemma RandomSaturation_photometric lower upper :
  keeps_ground_truth (RandomSaturation lower upper) /\
  keeps_image_shape (RandomSaturation lower upper).
Proof.
  split; intros s t s' t' H; unfold RandomSaturation in H;
    apply bind_inv in H as ([|] & t0 & _ & H);
    try (apply ret_inv in H as [<- _]; auto; fail);
    apply bind_inv in H as (x & t1 & _ & H);
    apply bind_inv in H as (im & t2 & Him & H);
    apply lift_inv in Him as [Him _]; apply ret_inv in H as [<- _];
    cbn; eauto using map_channel_shape.
Qed.

Lemma RandomHue_photometric delta :
  keeps_ground_truth (RandomHue delta) /\ keeps_image_shape (RandomHue delta).
Proof.
  split; intros s t s' t' H; unfold RandomHue in H;
    apply bind_inv in H as ([|] & t0 & _ & H);
    try (apply ret_inv in H as [<- _]; auto; fail);
    apply bind_inv in H as (x & t1 & _ & H);
    apply bind_inv in H as (im & t2 & Him & H);
    apply lift_inv in Him as [Him _]; apply ret_inv in H as [<- _];
    cbn; eauto using map_channel_shape.
Qed.

Section PhotometricRuns.

Variable cv2_cvtColor : ndarray -> cvt_code -> outcome ndarray.

Lemma ConvertColor_keeps_ground_truth code :
  keeps_ground_truth (ConvertColor cv2_cvtColor code).
Proof.
  intros s t s' t' H. unfold ConvertColor in H.
  apply bind_inv in H as (im & t1 & _ & H). apply ret_inv in H as [<- _].
  cbn. auto.
Qed.

Lemma ConvertColor_keeps_image_shape code :
  (forall src c dst, cv2_cvtColor src c = Return dst -> shape dst = shape src) ->
  keeps_image_shape (ConvertColor cv2_cvtColor code).
Proof.
  intros Hcv s t s' t' H. unfold ConvertColor in H.
  apply bind_inv in H as (im & t1 & Him & H). apply lift_inv in Him as [Him _].
  apply ret_inv in H as [<- _]. cbn. eauto.
Qed.

Lemma pd_keeps_ground_truth : Forall keeps_ground_truth (pd cv2_cvtColor).
Proof.
  unfold pd.
  repeat apply Forall_cons; try apply Forall_nil;
    first [ apply RandomContrast_photometric | apply RandomSaturation_photometric
          | apply RandomHue_photometric | apply ConvertColor_keeps_ground_truth ].
Qed.

Lemma pd_keeps_image_shape :
  (forall src c dst, cv2_cvtColor src c = Return dst -> shape dst = shape src) ->
  Forall keeps_image_shape (pd cv2_cvtColor).
Proof.
  intro Hcv. unfold pd.
  repeat apply Forall_cons; try apply Forall_nil;
    first [ apply RandomContrast_photometric | apply RandomSaturation_photometric
          | apply RandomHue_photometric
          | apply ConvertColor_keeps_image_shape; exact Hcv ].
Qed.

Lemma Forall_removelast {A : Type} (P : A -> Prop) (l : list A) :
  Forall P l -> Forall P (removelast l).
Proof.
  induction 1 as [|x l Hx Hl IH]; [constructor|].
  cbn [removelast]. destruct l; [constructor|]. constructor; assumption.
Qed.

Lemma Forall_tl {A : Type} (P : A -> Prop) (l : list A) :
  Forall P l -> Forall P (tl l).
Proof. intro H. destruct H; cbn; auto. Qed.

Lemma PhotometricDistort_photometric :
  keeps_ground_truth (PhotometricDistort cv2_cvtColor) /\
  ((forall src c dst, cv2_cvtColor src c = Return dst -> shape dst = shape src) ->
   keeps_image_shape (PhotometricDistort cv2_cvtColor)).
Proof.
  split; [|intro Hcv]; intros s t s' t' H; unfold PhotometricDistort in H;
    apply bind_inv in H as (s1 & t1 & H1 & H);
    apply bind_inv in H as (coin & t2 & _ & H);
    apply bind_inv in H as (s2 & t3 & H2 & H);
    apply ret_inv in H as [<- _].
  - apply RandomBrightness_photometric in H1 as (E1 & E2 & E3).
    assert (F : s_masks s2 = s_masks s1 /\ s_boxes s2 = s_boxes s1 /\
                s_labels s2 = s_labels s1).
    { destruct coin;
        (eapply Compose_keeps_ground_truth; [|exact H2]);
        auto using Forall_removelast, Forall_tl, pd_keeps_ground_truth. }
    destruct F as (F1 & F2 & F3). repeat split; congruence.
  - apply RandomBrightness_photometric in H1.
    assert (F : shape (s_image s2) = shape (s_image s1)).
    { destruct coin;
        (eapply Compose_keeps_image_shape; [|exact H2]);
        auto using Forall_removelast, Forall_tl, pd_keeps_image_shape. }
    congruence.
Qed.

(** X15: [PhotometricDistort] changes pixel values only: masks, boxes and
    labels come back as they were, whatever the draws and whatever
    [cv2.cvtColor] returns, and the image keeps its shape when
    [cv2.cvtColor] keeps it. *)
Theorem PhotometricDistort_changes_pixels_only s t s' t' :
  PhotometricDistort cv2_cvtColor s t = Return (s', t') ->
  s_masks s' = s_masks s /\ s_boxes s' = s_boxes s /\ s_labels s' = s_labels s /\
  ((forall src c dst, cv2_cvtColor src c = Return dst -> shape dst = shape src) ->
   shape (s_image s') = shape (s_image s)).
Proof.
  intro H. destruct PhotometricDistort_photometric as [Hgt Hsh].
  destruct (Hgt _ _ _ _ H) as (E1 & E2 & E3). repeat split; auto.
  intro Hcv. eapply Hsh; eauto.
Qed.

End PhotometricRuns.

Lemma PhotometricDistort_changes_pixels_only_witness :
  exists s',
    PhotometricDistort keep_colors demo_sample
      [3 # 4; 1 # 2; 1 # 4; 3 # 4; 1 # 2; 1 # 4; 3 # 4; 1 # 2] = Return (s', []) /\
    s_masks s' = s_masks demo_sample /\ s_boxes s' = s_boxes demo_sample /\
    s_labels s' = s_labels demo_sample /\
    ((forall src c dst, keep_colors src c = Return dst -> shape dst = shape src) ->
     shape (s_image s') = shape (s_image demo_sample)).
Proof.
  eexists. split; [vm_compute; reflexivity|].
  eapply (PhotometricDistort_changes_pixels_only keep_colors demo_sample
            [3 # 4; 1 # 2; 1 # 4; 3 # 4; 1 # 2; 1 # 4; 3 # 4; 1 # 2] _ []).
  vm_compute. reflexivity.
Defined.

(** ** The composer *)

(** X16: composing a list of transforms that is the concatenation of two
    lists is running the first list and then, on what it returns and with
    the random source where it left it, the second list; an exception of
    the first list is the result and nothing of the second list runs. *)
Theorem Compose_app (l1 l2 : list transform) (s : sample) (t : tape) :
  Compose (l1 ++ l2) s t = bind (Compose l1 s) (Compose l2) t /\
  (forall e, Compose l1 s t = Raise e -> Compose (l1 ++ l2) s t = Raise e).
Proof.
  assert (H : forall s t, Compose (l1 ++ l2) s t = bind (Compose l1 s) (Compose l2) t).
  { induction l1 as [|f l1 IH]; intros s0 t0; cbn [app Compose].
    - reflexivity.
    - unfold bind. destruct (f s0 t0) as [[s1 t1]| |]; try reflexivity.
      rewrite IH. reflexivity. }
  split; [apply H|]. intros e He. rewrite H. unfold bind. rewrite He. reflexivity.
Qed.

(** ** The validation preset, end to end *)

Lemma normalize_to_rgb_inv (a b : ndarray) :
  normalize_to_rgb a = Return b ->
  exists d0 d1 c v,
    a = Arr3 d0 d1 c v /\ (c = 3 \/ c = 1)%nat /\
    shape b = [d0; d1; 3%nat] /\
    forall i j k,
      (i < d0)%nat -> (j < d1)%nat -> (k < 3)%nat ->
      at3 b i j k
      = (get3 v i j (if Nat.eqb c 1 then 0 else 2 - k)%nat - nth (2 - k) MEANS 0)
        / nth (2 - k) STD 1.
Proof.
  destruct a as [d0 d1 v|d0 d1 c v]; cbn [normalize_to_rgb].
  - destruct (broadcasts d1 3); discriminate.
  - destruct (_ || _)%bool eqn:E; [|discriminate].
    intro H. injection H as <-.
    apply orb_true_iff in E. rewrite !Nat.eqb_eq in E.
    exists d0, d1, c, v. repeat split; auto.
    intros i j k Hi Hj Hk. unfold at3. cbn [planes].
    rewrite get3_tab by assumption. reflexivity.
Qed.

(** X17: on a rank-3 image that [cv2.resize] turns into an
    [S x S x 3] image [r], the validation pipeline returns, leaves the
    random source, the masks, the boxes and the labels as they were, and
    its image is [r] normalised and reordered: channel [k] of a pixel is
    [(r[i, j, 2 - k] - mean[2 - k]) / std[2 - k]]. *)
Theorem ValAug_normalises_the_resized_image
        (cv2_resize : ndarray -> Z -> Z -> outcome ndarray)
        (S : nat) (s : sample) (t : tape) (r : ndarray) h w c v :
  s_image s = Arr3 h w c v ->
  cv2_resize (s_image s) (Z.of_nat S) (Z.of_nat S) = Return r ->
  shape r = [S; S; 3%nat] ->
  exists s',
    ValAug cv2_resize (Z.of_nat S) s t = Return (s', t) /\
    shape (s_image s') = [S; S; 3%nat] /\
    s_masks s' = s_masks s /\ s_boxes s' = s_boxes s /\ s_labels s' = s_labels s /\
    forall i j k,
      (i < S)%nat -> (j < S)%nat -> (k < 3)%nat ->
      at3 (s_image s') i j k
      = (at3 r i j (2 - k) - nth (2 - k) MEANS 0) / nth (2 - k) STD 1.
Proof.
  intros Him Hcv Hr.
  destruct r as [|r0 r1 r2 rv]; [discriminate|]. cbn in Hr.
  injection Hr as -> -> ->.
  set (s1 := Sample (Arr3 S S 3 rv) (s_masks s) (s_boxes s) (s_labels s)).
  assert (H1 : Resize cv2_resize (Z.of_nat S) false s t = Return (s1, t)).
  { unfold Resize. rewrite Him in *. cbn [unpack_shape3 obind lift].
    rewrite Hcv. reflexivity. }
  destruct (Pad_run_when_image_fits S S false s1 t S S rv)
    as (s2 & H2 & Hs2 & Hpix & Hb2 & Hl2 & Hm2);
    try reflexivity; try lia; try (intros Hf; discriminate Hf).
  specialize (Hm2 eq_refl).
  destruct (s_image s2) as [|p0 p1 p2 pv] eqn:Hi2; [discriminate|].
  cbn in Hs2. injection Hs2 as -> -> ->.
  eexists. split.
  - unfold ValAug. cbn [Compose]. unfold bind at 1. unfold ConvertFromInts, ret at 1.
    unfold bind at 1. rewrite H1. unfold bind at 1. rewrite H2.
    unfold bind at 1. unfold NormalizeAndToRGB. rewrite Hi2.
    cbn [normalize_to_rgb Nat.eqb orb obind lift]. reflexivity.
  - cbn [s_image s_masks s_boxes s_labels shape]. rewrite Hm2, Hb2, Hl2.
    repeat split.
    intros i j k Hi Hj Hk. unfold at3 at 1. cbn [planes].
    rewrite get3_tab by assumption.
    assert (Hk' : (2 - k < 3)%nat) by lia.
    specialize (Hpix i j (2 - k)%nat Hi Hj Hk'). unfold at3 in Hpix.
    cbn [planes s_image s1] in Hpix.
    apply Nat.ltb_lt in Hi, Hj. rewrite Hi, Hj in Hpix. cbn [andb] in Hpix.
    rewrite Hpix. reflexivity.
Qed.

Lemma ValAug_normalises_the_resized_image_witness :
  exists r s',
    nearest_resize (s_image demo_sample) 4 4 = Return r /\
    ValAug nearest_resize 4 demo_sample [1 # 2] = Return (s', [1 # 2]) /\
    shape (s_image s') = [4; 4; 3]%nat /\
    s_masks s' = s_masks demo_sample /\ s_boxes s' = s_boxes demo_sample /\
    s_labels s' = s_labels demo_sample /\
    forall i j k,
      (i < 4)%nat -> (j < 4)%nat -> (k < 3)%nat ->
      at3 (s_image s') i j k
      = (at3 r i j (2 - k) - nth (2 - k) MEANS 0) / nth (2 - k) STD 1.
Proof.
  eexists.
  assert (Hr : nearest_resize (s_image demo_sample) 4 4 = Return _)
    by (vm_compute; reflexivity).
  destruct (ValAug_normalises_the_resized_image nearest_resize 4 demo_sample
              [1 # 2] _ 10 10 3 _ eq_refl Hr eq_refl) as (s' & H).
  exists s'. split; [exact Hr|exact H].
Defined.

(** ** The training preset, end to end *)

Lemma shape0_of_shape (a : ndarray) (n : nat) (rest : list nat) :
  shape a = n :: rest -> shape0 a = n.
Proof. destruct a; cbn; intro H; injection H; auto. Qed.

Lemma consistent_transfer (s s' : sample) :
  length (s_boxes s') = length (s_boxes s) ->
  shape0 (s_masks s') = shape0 (s_masks s) ->
  s_labels s' = s_labels s ->
  annotations_consistent s -> annotations_consistent s'.
Proof.
  unfold annotations_consistent, same_length, crowd_convention.
  intros Hb Hm Hl [[H1 H2] H3]. rewrite Hb, Hm, Hl. auto.
Qed.

Lemma ToAbsoluteCoords_inv s t s' t' :
  ToAbsoluteCoords s t = Return (s', t') ->
  s_image s' = s_image s /\ s_masks s' = s_masks s /\
  length (s_boxes s') = length (s_boxes s) /\ s_labels s' = s_labels s.
Proof.
  unfold ToAbsoluteCoords. intro H. apply lift_inv in H as [H _].
  apply obind_inv in H as ([[h w] c] & _ & H). injection H as <-.
  cbn. rewrite length_map. auto.
Qed.

Lemma ToPercentCoords_inv s t s' t' :
  ToPercentCoords s t = Return (s', t') ->
  s_image s' = s_image s /\ s_masks s' = s_masks s /\
  length (s_boxes s') = length (s_boxes s) /\ s_labels s' = s_labels s.
Proof.
  unfold ToPercentCoords. intro H. apply lift_inv in H as [H _].
  apply obind_inv in H as ([[h w] c] & _ & H). injection H as <-.
  cbn. rewrite length_map. auto.
Qed.

Lemma NormalizeAndToRGB_inv s t s' t' :
  NormalizeAndToRGB s t = Return (s', t') ->
  normalize_to_rgb (s_image s) = Return (s_image s') /\
  s_masks s' = s_masks s /\ s_boxes s' = s_boxes s /\ s_labels s' = s_labels s.
Proof.
  unfold NormalizeAndToRGB. intro H. apply lift_inv in H as [H _].
  apply obind_inv in H as (img & Hn & H). injection H as <-. cbn. auto.
Qed.

Lemma Expand_consistent s t s' t' :
  annotations_consistent s -> Expand s t = Return (s', t') ->
  annotations_consistent s'.
Proof.
  intros Hc H.
  apply Expand_inv in H as [->|(eh & ew & ed & ratio & left & top & H)]; auto.
  apply expand_at_success in H as (H' & W' & _ & Hm & Hb & Hl).
  apply (consistent_transfer s s');
    [rewrite Hb; apply length_map | eapply shape0_of_shape; eauto
    | assumption | assumption].
Qed.

Lemma crop_at_consistent s r lo hi s' :
  annotations_consistent s -> crop_at s r lo hi = Return (Some s') ->
  annotations_consistent s'.
Proof.
  intros [_ [H0 _]] Hat.
  pose proof (crop_at_num_crowds _ _ _ _ _ Hat) as [_ Hle].
  pose proof (crop_at_success _ _ _ _ _ Hat) as
    (_ & _ & (n & h & w & v & Hm & Hn & Hm') & Hb & Hl & Hl' & Hnc).
  cbn zeta in Hnc.
  split.
  - unfold same_length. rewrite Hm', Hb, Hl'. cbn [shape0].
    rewrite length_map, !select_length; auto using length_map.
  - split; [|auto].
    rewrite Hnc. destruct (Z.ltb_spec 0 (num_crowds (s_labels s))); [|assumption].
    apply np_sum_nonneg.
    pose proof (crowd_mask_entries
                  (length (map (center_mask r) (s_boxes s)))
                  (num_crowds (s_labels s))) as Hcm.
    rewrite Forall_forall in *. intros c Hc. apply Hcm.
    eapply select_In; eauto.
Qed.

Lemma RandomSampleCrop_consistent fuel s t s' t' :
  annotations_consistent s -> RandomSampleCrop fuel s t = Return (s', t') ->
  annotations_consistent s'.
Proof.
  intros Hc H.
  apply RandomSampleCrop_inv in H as [->|(r & lo & hi & _ & Hat)]; auto.
  eapply crop_at_consistent; eauto.
Qed.

Lemma RandomMirror_consistent s t s' t' :
  annotations_consistent s -> RandomMirror s t = Return (s', t') ->
  annotations_consistent s'.
Proof.
  intros Hc H.
  apply RandomMirror_inv in H
    as [->|(h' & w' & c' & v' & n & mh & mw & mv & _ & Hm & ->)]; auto.
  apply (consistent_transfer s); cbn [s_boxes s_masks s_labels];
    [apply length_map | rewrite Hm; reflexivity | reflexivity | assumption].
Qed.

Lemma transpose_120_inv (a b : ndarray) :
  transpose_120 a = Return b ->
  exists n h w, shape a = [n; h; w] /\ shape b = [h; w; n].
Proof.
  destruct a as [|n h w v]; cbn; [discriminate|].
  intro H. injection H as <-. exists n, h, w. auto.
Qed.

Section ResizeContract.

Variable cv2_resize : ndarray -> Z -> Z -> outcome ndarray.
Hypothesis contract : resize_contract cv2_resize.

Lemma Resize_gt_shapes img_size s t s' t' :
  Resize cv2_resize img_size true s t = Return (s', t') ->
  shape (s_masks s') = [shape0 (s_masks s); Z.to_nat img_size; Z.to_nat img_size] /\
  length (s_boxes s') = length (s_boxes s) /\ s_labels s' = s_labels s.
Proof.
  unfold Resize. intro H. apply lift_inv in H as [H _].
  apply obind_inv in H as ([[img_h img_w] c] & _ & H).
  apply obind_inv in H as (image & _ & H).
  apply obind_inv in H as (transposed & Htr & H).
  apply obind_inv in H as (resized & Hre & H).
  apply obind_inv in H as (masks & Hms & H).
  apply obind_inv in H as (sx & _ & H).
  apply obind_inv in H as (sy & _ & H).
  injection H as <-. cbn [s_image s_masks s_boxes s_labels].
  rewrite length_map. split; [|auto].
  apply transpose_120_inv in Htr as (n & h & w & Hsm & Htr).
  apply contract in Hre. rewrite Htr in Hre.
  rewrite (shape0_of_shape _ _ _ Hsm).
  destruct resized as [d0 d1 v|d0 d1 d2 v]; cbn [shape] in Hre.
  - injection Hms as <-.
    destruct (Nat.eqb_spec n 1) as [->|_]; [|discriminate].
    injection Hre as -> ->. reflexivity.
  - destruct (Nat.eqb_spec n 1) as [->|_]; [discriminate|].
    injection Hre as -> -> ->. cbn in Hms. injection Hms as <-. reflexivity.
Qed.

Lemma Resize_gt_consistent img_size s t s' t' :
  annotations_consistent s ->
  Resize cv2_resize img_size true s t = Return (s', t') ->
  annotations_consistent s'.
Proof.
  intros Hc H. apply Resize_gt_shapes in H as (Hm & Hb & Hl).
  apply (consistent_transfer s s');
    [assumption | eapply shape0_of_shape; eauto | assumption | assumption].
Qed.

Variable cv2_cvtColor : ndarray -> cvt_code -> outcome ndarray.

(** X18: when the training pipeline returns, on a sample whose boxes,
    masks and class ids have one length and whose [num_crowds] is between
    0 and that length, the image is [S x S x 3], there is one [S x S] mask
    per returned box, boxes, masks and class ids still have one length,
    and [num_crowds] is still between 0 and that length. *)
Theorem TrainAug_returns_consistent_sample
        (fuel : nat) (img_size : Z) (s s' : sample) (t t' : tape) :
  annotations_consistent s ->
  TrainAug cv2_cvtColor cv2_resize fuel img_size s t = Return (s', t') ->
  shape (s_image s') = [Z.to_nat img_size; Z.to_nat img_size; 3%nat] /\
  shape (s_masks s')
  = [length (s_boxes s'); Z.to_nat img_size; Z.to_nat img_size] /\
  annotations_consistent s'.
Proof.
  intros Hc H. unfold TrainAug in H. cbn [Compose] in H.
  apply bind_inv in H as (s1 & t1 & H1 & H).
  apply ret_inv in H1 as [<- _].
  apply bind_inv in H as (s2 & t2 & H2 & H).
  apply bind_inv in H as (s3 & t3 & H3 & H).
  apply bind_inv in H as (s4 & t4 & H4 & H).
  apply bind_inv in H as (s5 & t5 & H5 & H).
  apply bind_inv in H as (s6 & t6 & H6 & H).
  apply bind_inv in H as (s7 & t7 & H7 & H).
  apply bind_inv in H as (s8 & t8 & H8 & H).
  apply bind_inv in H as (s9 & t9 & H9 & H).
  apply bind_inv in H as (s10 & t10 & H10 & H).
  apply ret_inv in H as [<- _].
  apply ToAbsoluteCoords_inv in H2 as (_ & Hm2 & Hb2 & Hl2).
  assert (C2 : annotations_consistent s2)
    by (apply (consistent_transfer s); [assumption|congruence|assumption|assumption]).
  destruct (PhotometricDistort_photometric cv2_cvtColor) as [Hgt _].
  apply Hgt in H3 as (Hm3 & Hb3 & Hl3).
  assert (C3 : annotations_consistent s3)
    by (apply (consistent_transfer s2); [congruence|congruence|assumption|assumption]).
  pose proof (Expand_consistent _ _ _ _ C3 H4) as C4.
  pose proof (RandomSampleCrop_consistent _ _ _ _ _ C4 H5) as C5.
  pose proof (RandomMirror_consistent _ _ _ _ C5 H6) as C6.
  pose proof (Resize_gt_consistent _ _ _ _ _ C6 H7) as C7.
  apply Pad_inv in H8 as (depth & Hi8 & Hm8 & Hb8 & Hl8).
  assert (C8 : annotations_consistent s8).
  { apply (consistent_transfer s7);
      [congruence | eapply shape0_of_shape; eauto | assumption | assumption]. }
  apply ToPercentCoords_inv in H9 as (Hi9 & Hm9 & Hb9 & Hl9).
  assert (C9 : annotations_consistent s9)
    by (apply (consistent_transfer s8); [assumption|congruence|assumption|assumption]).
  apply NormalizeAndToRGB_inv in H10 as (Hn & Hm10 & Hb10 & Hl10).
  assert (C10 : annotations_consistent s10)
    by (apply (consistent_transfer s9); [congruence|congruence|assumption|assumption]).
  apply normalize_to_rgb_inv in Hn as (d0 & d1 & c & v & Ha & _ & Hs10 & _).
  rewrite <- Hi9, Ha in Hi8. cbn in Hi8. injection Hi8 as -> -> _.
  repeat split; try apply C10; auto.
  rewrite Hm10, Hm9, Hm8. f_equal.
  destruct C8 as [[E _] _]. rewrite Hb10, Hb9, E.
  symmetry. eapply shape0_of_shape; eauto.
Qed.

End ResizeContract.

Lemma nearest_resize_contract : resize_contract nearest_resize.
Proof.
  intros src width height dst. unfold nearest_resize.
  destruct (_ || _)%bool; [discriminate|].
  destruct src as [d0 d1 v|d0 d1 c v]; cbn [shape].
  - destruct (_ || _)%bool; [discriminate|]. intro H. injection H as <-. reflexivity.
  - destruct (_ || _)%bool; [discriminate|].
    destruct (Nat.eqb c 1); intro H; injection H as <-; reflexivity.
Qed.

Lemma TrainAug_returns_consistent_sample_witness :
  exists s',
    TrainAug keep_colors nearest_resize 1 6 demo_percent_sample demo_train_tape
    = Return (s', []) /\
    shape (s_image s') = [6; 6; 3]%nat /\
    shape (s_masks s') = [length (s_boxes s'); 6; 6]%nat /\
    annotations_consistent s'.
Proof.
  eexists. split; [vm_compute; reflexivity|].
  eapply (TrainAug_returns_consistent_sample nearest_resize
            nearest_resize_contract keep_colors 1 6 demo_percent_sample _
            demo_train_tape []).
  - split; [split; reflexivity | split; vm_compute; discriminate].
  - vm_compute. reflexivity.
Defined.

(** ** Boxes stay inside the image *)

















(** ** RandomSampleCrop: where the rectangle lies *)

Lemma valid_tape_tail (u : Q) (t : tape) :
  valid_tape (u :: t) -> 0 <= u < 1 /\ valid_tape t.
Proof. intro H. inversion H; subst. auto. Qed.












(** ** The random source is read forwards *)













(** ** The training preset keeps percent boxes in the unit square *)









Section TrainRuns.

Variable cv2_cvtColor : ndarray -> cvt_code -> outcome ndarray.
Variable cv2_resize : ndarray -> Z -> Z -> outcome ndarray.
Hypothesis cvt_shape :
  forall src code dst, cv2_cvtColor src code = Return dst -> shape dst = shape src.
Hypothesis resize_shape : resizes_to_dsize cv2_resize.


End TrainRuns.



(** ** Contrast and brightness *)

(** X22: with parameters that the constructors accept and draws in
    [[0, 1)], [RandomContrast] either returns the sample as it is or
    multiplies every pixel by one factor between [lower] and [upper], which
    is not negative; [RandomBrightness] either returns the sample as it is
    or adds to every pixel one offset between [-delta] and [delta]. *)
Theorem contrast_and_brightness_in_range (lower upper delta : Q) s t s' t' :
  bounds_accepted lower upper = true ->
  brightness_delta_accepted delta = true ->
  valid_tape t ->
  (RandomContrast lower upper s t = Return (s', t') ->
   s' = s \/
   exists alpha,
     lower <= alpha <= upper /\ 0 <= alpha /\
     s' = with_image s (map_elements (fun p => p * alpha) (s_image s))) /\
  (RandomBrightness delta s t = Return (s', t') ->
   s' = s \/
   exists d,
     - delta <= d <= delta /\
     s' = with_image s (map_elements (fun p => p + d) (s_image s))).
Proof.
  intros Hb Hd Hv. unfold bounds_accepted in Hb. unfold brightness_delta_accepted in Hd.
  apply andb_true_iff in Hb as [Hb1 Hb2]. apply andb_true_iff in Hd as [Hd1 Hd2].
  qbool. split; intro H.
  - unfold RandomContrast in H.
    apply bind_inv in H as (coin & t0 & Hcoin & H).
    apply random_randint01_inv in Hcoin as (u0 & ->).
    apply valid_tape_tail in Hv as [_ Hv].
    destruct coin; [right|apply ret_inv in H as [<- _]; auto].
    apply bind_inv in H as (alpha & t1 & Ha & H).
    apply random_uniform_inv in Ha as (u & -> & Ha).
    apply valid_tape_tail in Hv as [Hu _].
    apply ret_inv in H as [<- _].
    pose proof (uniform_range lower upper u Hb1 Hu) as Hr.
    exists alpha. rewrite Ha at 1 2 3. split; [lra|]. split; [lra|]. reflexivity.
  - unfold RandomBrightness in H.
    apply bind_inv in H as (coin & t0 & Hcoin & H).
    apply random_randint01_inv in Hcoin as (u0 & ->).
    apply valid_tape_tail in Hv as [_ Hv].
    destruct coin; [right|apply ret_inv in H as [<- _]; auto].
    apply bind_inv in H as (d & t1 & Hd' & H).
    apply random_uniform_inv in Hd' as (u & -> & Hd').
    apply valid_tape_tail in Hv as [Hu _].
    apply ret_inv in H as [<- _].
    pose proof (uniform_range (- delta) delta u ltac:(lra) Hu) as Hr.
    exists d. rewrite Hd' at 1 2. split; [lra|]. reflexivity.
Qed.

Lemma contrast_and_brightness_in_range_witness :
  exists s',
    RandomContrast (1 # 2) (3 # 2) demo_sample [3 # 4; 1 # 2] = Return (s', []) /\
    (s' = demo_sample \/
     exists alpha,
       (1 # 2) <= alpha <= (3 # 2) /\ 0 <= alpha /\
       s' = with_image demo_sample
              (map_elements (fun p => p * alpha) (s_image demo_sample))).
Proof.
  eexists. split; [vm_compute; reflexivity|].
  eapply (contrast_and_brightness_in_range (1 # 2) (3 # 2) 32 demo_sample
            [3 # 4; 1 # 2] _ []).
  - reflexivity.
  - reflexivity.
  - repeat constructor; vm_compute; discriminate.
  - vm_compute. reflexivity.
Defined.
